(** * Host-side HCI transport framing and LE address rotation

    A shallow embedding of two components of the Bluetooth host stack:

    - [Hal]: the read path of the rootcanal transport driver
      (gd/hal/hci_hal_host_rootcanal.cc, [incoming_packet_received]);
    - [Hci]: the LE address manager (gd/hci/le_address_manager.cc): address
      generation, the rotation interval, the registered-client table, the
      cached command queue and the completion handlers.

    Bytes are [Byte.byte]; C integers are [Z] with their range written out;
    the socket and the random source are explicit inputs; callbacks, commands
    handed to the controller and alarm operations are recorded in a trace. *)

From Stdlib Require Import ZArith Lia List String.
From Stdlib Require Import Strings.Byte.
From stdpp Require Import base option list gmap.

Local Open Scope Z_scope.

(** ** Bytes as unsigned 8-bit integers *)

Definition u8 (b : byte) : Z := Z.of_N (Byte.to_N b).

(** ** The transport driver's read path *)

Module Hal.

Definition kH4Command : byte := x01.
Definition kH4Acl : byte := x02.
Definition kH4Sco : byte := x03.
Definition kH4Event : byte := x04.

Definition kH4HeaderSize : nat := 1.
Definition kHciAclHeaderSize : nat := 4.
Definition kHciScoHeaderSize : nat := 3.
Definition kHciEvtHeaderSize : nat := 2.
Definition kBufSize : nat := 1024.

Inductive Direction := INCOMING | OUTGOING.
Inductive PacketType := CMD | ACL | SCO | EVT.

(** What the handler does to the outside world, in program order. *)
Inductive Effect :=
| capture (packet : list byte) (dir : Direction) (type : PacketType)
| hciEventReceived (packet : list byte)
| aclDataReceived (packet : list byte)
| scoDataReceived (packet : list byte)
| raise_SIGINT.

(** The stream socket: the bytes that have arrived and are not yet read, and
    whether the peer has shut the connection down. *)
Record Socket := { arrived : list byte; peer_closed : bool }.

(** The fields of the driver object the read path touches. *)
Record Driver := {
  incoming_packet_callback_ : bool;   (* the pointer is not null *)
  sock_fd_ : Socket;
  trace : list Effect
}.

Definition emit (es : list Effect) (d : Driver) : Driver :=
  {| incoming_packet_callback_ := incoming_packet_callback_ d;
     sock_fd_ := sock_fd_ d;
     trace := trace d ++ es |}.

(** [recv(fd, p, len, 0)] on the non-blocking stream socket: the value
    returned, the bytes handed over and the socket afterwards.  With nothing
    arrived the call returns 0 once the peer has closed and -1 (would block)
    before that, whatever [len] is, zero included; otherwise up to [len]
    arrived bytes are taken, none for a request of zero bytes. *)
Definition recv (s : Socket) (len : nat) : Z * list byte * Socket :=
  match arrived s with
  | [] => (if peer_closed s then 0 else -1, [], s)
  | _ :: _ =>
      let data := take len (arrived s) in
      (Z.of_nat (length data), data,
       {| arrived := drop len (arrived s); peer_closed := peer_closed s |})
  end.

(** Storing [data] at [buf + off]. *)
Definition store_at (buf : list byte) (off : nat) (data : list byte) : list byte :=
  take off buf ++ data ++ drop (off + length data) buf.

(** [buf + from .. buf + to), as [std::vector::assign] copies it. *)
Definition range (buf : list byte) (from to : nat) : list byte :=
  take (to - from) (drop from buf).

Inductive Recv :=
| Stored (ret : Z) (buf : list byte) (d : Driver)
| PastEnd (d : Driver).

(** A [recv] into [buf + off].  The array has [kBufSize] bytes; bytes stored
    beyond it are outside the array, which the model reports as [PastEnd]. *)
Definition recv_into (d : Driver) (buf : list byte) (off len : nat) : Recv :=
  let '(ret, data, s) := recv (sock_fd_ d) len in
  let d' := {| incoming_packet_callback_ := incoming_packet_callback_ d;
               sock_fd_ := s; trace := trace d |} in
  if (off + length data <=? kBufSize)%nat
  then Stored ret (store_at buf off data) d'
  else PastEnd d'.

(** How one run of the handler ends. *)
Inductive Exec :=
| Returned (d : Driver)                    (* normal return *)
| Aborted (msg : string) (d : Driver)      (* a failed ASSERT / ASSERT_LOG *)
| Overrun (d : Driver).                    (* a store outside [buf] *)

Definition byte_at (buf : list byte) (i : nat) : byte := nth i buf x00.

(** The body of [if (buf[0] == kH4Event) { ... }]. *)
Definition event_block (buf : list byte) (d : Driver)
    (k : list byte -> Driver -> Exec) : Exec :=
  match recv_into d buf kH4HeaderSize kHciEvtHeaderSize with
  | PastEnd d1 => Overrun d1
  | Stored received_size buf1 d1 =>
    if negb (received_size =? Z.of_nat kHciEvtHeaderSize)
    then Aborted "malformed HCI event header received" d1
    else
      let hci_evt_parameter_total_length := u8 (byte_at buf1 2) in
      match recv_into d1 buf1 (kH4HeaderSize + kHciEvtHeaderSize)
                      (Z.to_nat hci_evt_parameter_total_length) with
      | PastEnd d2 => Overrun d2
      | Stored payload_size buf2 d2 =>
        if negb (payload_size =? hci_evt_parameter_total_length)
        then Aborted "malformed HCI event total parameter size received" d2
        else
          let receivedHciPacket :=
            range buf2 kH4HeaderSize
                  (kH4HeaderSize + kHciEvtHeaderSize + Z.to_nat payload_size) in
          k buf2 (emit [capture receivedHciPacket INCOMING EVT;
                        hciEventReceived receivedHciPacket] d2)
      end
  end.

(** The body of [if (buf[0] == kH4Acl) { ... }].  The length is a [uint16_t]
    built from two header bytes; the payload is received before the two
    assertions on its length are evaluated, in the order of the source. *)
Definition acl_block (buf : list byte) (d : Driver)
    (k : list byte -> Driver -> Exec) : Exec :=
  match recv_into d buf kH4HeaderSize kHciAclHeaderSize with
  | PastEnd d1 => Overrun d1
  | Stored received_size buf1 d1 =>
    if negb (received_size =? Z.of_nat kHciAclHeaderSize)
    then Aborted "malformed ACL header received" d1
    else
      let hci_acl_data_total_length :=
        (u8 (byte_at buf1 4) * 256 + u8 (byte_at buf1 3)) mod 2 ^ 16 in
      match recv_into d1 buf1 (kH4HeaderSize + kHciAclHeaderSize)
                      (Z.to_nat hci_acl_data_total_length) with
      | PastEnd d2 => Overrun d2
      | Stored payload_size buf2 d2 =>
        if negb (payload_size =? hci_acl_data_total_length)
        then Aborted "malformed ACL length received" d2
        else if negb (hci_acl_data_total_length <=?
                        Z.of_nat kBufSize - Z.of_nat kH4HeaderSize
                        - Z.of_nat kHciAclHeaderSize)
        then Aborted "packet too long" d2
        else
          let receivedHciPacket :=
            range buf2 kH4HeaderSize
                  (kH4HeaderSize + kHciAclHeaderSize + Z.to_nat payload_size) in
          k buf2 (emit [capture receivedHciPacket INCOMING ACL;
                        aclDataReceived receivedHciPacket] d2)
      end
  end.

(** The body of [if (buf[0] == kH4Sco) { ... }]. *)
Definition sco_block (buf : list byte) (d : Driver)
    (k : list byte -> Driver -> Exec) : Exec :=
  match recv_into d buf kH4HeaderSize kHciScoHeaderSize with
  | PastEnd d1 => Overrun d1
  | Stored received_size buf1 d1 =>
    if negb (received_size =? Z.of_nat kHciScoHeaderSize)
    then Aborted "malformed SCO header received" d1
    else
      let hci_sco_data_total_length := u8 (byte_at buf1 3) in
      match recv_into d1 buf1 (kH4HeaderSize + kHciScoHeaderSize)
                      (Z.to_nat hci_sco_data_total_length) with
      | PastEnd d2 => Overrun d2
      | Stored payload_size buf2 d2 =>
        if negb (payload_size =? hci_sco_data_total_length)
        then Aborted "malformed SCO packet received: size mismatch" d2
        else
          let receivedHciPacket :=
            range buf2 kH4HeaderSize
                  (kH4HeaderSize + kHciScoHeaderSize + Z.to_nat payload_size) in
          k buf2 (emit [capture receivedHciPacket INCOMING SCO;
                        scoDataReceived receivedHciPacket] d2)
      end
  end.

(** [incoming_packet_received]: one tag byte, then the three [if] statements
    one after the other, each testing [buf[0]] again, then the [memset]
    (which only clears the local array) and the return. *)
Definition incoming_packet_received (d : Driver) : Exec :=
  if negb (incoming_packet_callback_ d)
  then Aborted "incoming_packet_callback_ != nullptr" d
  else
    let buf := replicate kBufSize x00 in
    match recv_into d buf 0 kH4HeaderSize with
    | PastEnd d1 => Overrun d1
    | Stored received_size buf d1 =>
      if received_size =? -1 then Aborted "Can't receive from socket" d1
      else if received_size =? 0 then Returned (emit [raise_SIGINT] d1)
      else
        let after_sco (buf : list byte) (d : Driver) := Returned d in
        let after_acl (buf : list byte) (d : Driver) :=
          if Byte.eqb (byte_at buf 0) kH4Sco
          then sco_block buf d after_sco else after_sco buf d in
        let after_event (buf : list byte) (d : Driver) :=
          if Byte.eqb (byte_at buf 0) kH4Acl
          then acl_block buf d after_acl else after_acl buf d in
        if Byte.eqb (byte_at buf 0) kH4Event
        then event_block buf d1 after_event else after_event buf d1
    end.

(** The three framed packet kinds of the read path, as the framing table
    describes them: tag, header size after the tag, and where the header
    declares the payload length. *)
Inductive FrameKind := EventFrame | AclFrame | ScoFrame.

Definition frame_tag (k : FrameKind) : byte :=
  match k with EventFrame => x04 | AclFrame => x02 | ScoFrame => x03 end.

Definition frame_header_size (k : FrameKind) : nat :=
  match k with EventFrame => 2 | AclFrame => 4 | ScoFrame => 3 end%nat.

(** Header bytes are counted from 1 in the table: byte 2 of an event header
    is [nth 1]. *)
Definition declared_length (k : FrameKind) (hdr : list byte) : Z :=
  match k with
  | EventFrame => u8 (nth 1 hdr x00)
  | AclFrame => u8 (nth 2 hdr x00) + 256 * u8 (nth 3 hdr x00)
  | ScoFrame => u8 (nth 2 hdr x00)
  end.

Definition frame_type (k : FrameKind) : PacketType :=
  match k with EventFrame => EVT | AclFrame => ACL | ScoFrame => SCO end.

Definition delivered (k : FrameKind) (packet : list byte) : Effect :=
  match k with
  | EventFrame => hciEventReceived packet
  | AclFrame => aclDataReceived packet
  | ScoFrame => scoDataReceived packet
  end.

(** A frame [tag :: hdr ++ payload] is well formed when the header has the
    size of its kind, declares the length of the payload, and the whole frame
    fits the maximum frame size. *)
Definition well_formed_frame (k : FrameKind) (hdr payload : list byte) : Prop :=
  length hdr = frame_header_size k /\
  declared_length k hdr = Z.of_nat (length payload) /\
  (kH4HeaderSize + length hdr + length payload <= kBufSize)%nat.

Definition on_socket (d : Driver) (bytes : list byte) : Driver :=
  {| incoming_packet_callback_ := incoming_packet_callback_ d;
     sock_fd_ := {| arrived := bytes; peer_closed := peer_closed (sock_fd_ d) |};
     trace := trace d |}.

(** A driver with a receiver installed and [bytes] waiting on the socket. *)
Definition driver_with (bytes : list byte) : Driver :=
  {| incoming_packet_callback_ := true;
     sock_fd_ := {| arrived := bytes; peer_closed := false |};
     trace := [] |}.

(** *** The write side, the receiver registration and the module hooks *)

(** A raw pointer member: [btsnoop_logger_] has no initialiser, is set by
    [Start] and deleted and nulled by [Stop]. *)
Inductive Pointer := Indeterminate | Null | Live.

(** The driver object with the members the write side adds to [Driver]:
    whether [sock_fd_] is a descriptor ([connected]), the reactor
    registration ([None] for a null [reactable_], else whether a write
    callback is installed), the outgoing queue, and the bytes the socket
    has accepted from [write], in order. *)
Record Transport := {
  reader : Driver;
  connected : bool;
  reactable_ : option bool;
  btsnoop_logger_ : Pointer;
  hci_outgoing_queue_ : list (list byte);
  wire : list byte
}.

Inductive Outcome :=
| Done (t : Transport)
| Abort (msg : string)
| Undefined (what : string).

Definition set_reader (r : Driver) (t : Transport) : Transport :=
  {| reader := r; connected := connected t; reactable_ := reactable_ t;
     btsnoop_logger_ := btsnoop_logger_ t;
     hci_outgoing_queue_ := hci_outgoing_queue_ t; wire := wire t |}.

Definition set_reactable (r : option bool) (t : Transport) : Transport :=
  {| reader := reader t; connected := connected t; reactable_ := r;
     btsnoop_logger_ := btsnoop_logger_ t;
     hci_outgoing_queue_ := hci_outgoing_queue_ t; wire := wire t |}.

Definition set_outgoing_queue (q : list (list byte)) (t : Transport) : Transport :=
  {| reader := reader t; connected := connected t; reactable_ := reactable_ t;
     btsnoop_logger_ := btsnoop_logger_ t;
     hci_outgoing_queue_ := q; wire := wire t |}.

Definition set_wire (w : list byte) (t : Transport) : Transport :=
  {| reader := reader t; connected := connected t; reactable_ := reactable_ t;
     btsnoop_logger_ := btsnoop_logger_ t;
     hci_outgoing_queue_ := hci_outgoing_queue_ t; wire := w |}.

(** The object as the factory constructs it, by [new
    BluetoothHciHalHostRootcanal()]: nothing registered, no descriptor, and
    [btsnoop_logger_], the one member without an initialiser, zeroed by the
    value-initialisation.  An object that is default-initialised instead has
    an [Indeterminate] pointer there. *)
Definition new_Transport (s : Socket) : Transport :=
  {| reader := {| incoming_packet_callback_ := false; sock_fd_ := s; trace := [] |};
     connected := false; reactable_ := None; btsnoop_logger_ := Null;
     hci_outgoing_queue_ := []; wire := [] |}.

(** [callback] tells whether the pointer passed is not null. *)
Definition registerIncomingPacketCallback (callback : bool) (t : Transport) : Outcome :=
  if negb (negb (incoming_packet_callback_ (reader t)) && callback)
  then Abort "incoming_packet_callback_ == nullptr && callback != nullptr"
  else Done (set_reader
               {| incoming_packet_callback_ := true;
                  sock_fd_ := sock_fd_ (reader t); trace := trace (reader t) |} t).

(** [ModifyRegistration(reactable_, on_read, on_write)] with a write callback
    or with [nullptr] for it. *)
Definition ModifyRegistration (write_callback : bool) (t : Transport) : Outcome :=
  match reactable_ t with
  | None => Undefined "ModifyRegistration on a null reactable_"
  | Some _ => Done (set_reactable (Some write_callback) t)
  end.

Definition write_to_rootcanal_fd (packet : list byte) (t : Transport) : Outcome :=
  let t := set_outgoing_queue (hci_outgoing_queue_ t ++ [packet]) t in
  if (length (hci_outgoing_queue_ t) =? 1)%nat
  then ModifyRegistration true t
  else Done t.

(** The common body of the three send functions: [type] is the capture type
    and [tag] the H4 tag inserted in front. *)
Definition send_tagged (type : PacketType) (tag : byte) (packet : list byte)
    (t : Transport) : Outcome :=
  if negb (connected t) then Abort "sock_fd_ != INVALID_FD"
  else
    match btsnoop_logger_ t with
    | Live =>
      let t := set_reader (emit [capture packet OUTGOING type] (reader t)) t in
      let packet := tag :: packet in
      write_to_rootcanal_fd packet t
    | _ => Undefined "btsnoop_logger_->capture"
    end.

Definition sendHciCommand (command : list byte) (t : Transport) : Outcome :=
  send_tagged CMD kH4Command command t.

Definition sendAclData (data : list byte) (t : Transport) : Outcome :=
  send_tagged ACL kH4Acl data t.

Definition sendScoData (data : list byte) (t : Transport) : Outcome :=
  send_tagged SCO kH4Sco data t.

(** The write callback installed by [write_to_rootcanal_fd].  [write] gives
    what [::write] returns for a buffer: -1, or the number of bytes the
    socket accepted. *)
Definition on_write_ready (write : list byte -> Z) (t : Transport) : Outcome :=
  match hci_outgoing_queue_ t with
  | [] => Undefined "front() of an empty queue"
  | packet_to_send :: rest =>
    let bytes_written := write packet_to_send in
    let t := set_outgoing_queue rest t in
    if bytes_written =? -1 then Abort "abort()"
    else
      let t := set_wire (wire t ++ take (Z.to_nat bytes_written) packet_to_send) t in
      if bool_decide (hci_outgoing_queue_ t = [])
      then ModifyRegistration false t
      else Done t
  end.

(** Modelled from the spec: the reactor is not among the sources; it is the
    readiness-driven event loop, and on write readiness it calls the write
    callback of a registration that has one and does nothing otherwise. *)
Definition write_ready (write : list byte -> Z) (t : Transport) : Outcome :=
  match reactable_ t with
  | Some true => on_write_ready write t
  | _ => Done t
  end.

(** [Start]; [connection] is what [ConnectToRootCanal] returns, [None] for
    [INVALID_FD]. *)
Definition Start (connection : option Socket) (t : Transport) : Outcome :=
  if connected t then Abort "sock_fd_ == INVALID_FD"
  else
    match connection with
    | None => Abort "sock_fd_ != INVALID_FD"
    | Some s =>
      Done {| reader := {| incoming_packet_callback_ :=
                             incoming_packet_callback_ (reader t);
                           sock_fd_ := s; trace := trace (reader t) |};
              connected := true;
              reactable_ := Some false;
              btsnoop_logger_ := Live;
              hci_outgoing_queue_ := hci_outgoing_queue_ t;
              wire := wire t |}
    end.

Definition Stop (t : Transport) : Outcome :=
  match btsnoop_logger_ t with
  | Indeterminate => Undefined "delete of an indeterminate btsnoop_logger_"
  | _ =>
    if bool_decide (reactable_ t <> None) && negb (connected t)
    then Abort "sock_fd_ != INVALID_FD"
    else
      Done {| reader := {| incoming_packet_callback_ := false;
                           sock_fd_ := sock_fd_ (reader t);
                           trace := trace (reader t) |};
              connected := false;
              reactable_ := None;
              btsnoop_logger_ := Null;
              hci_outgoing_queue_ := hci_outgoing_queue_ t;
              wire := wire t |}
  end.

(** The read callback on the whole object. *)
Definition on_read_ready (t : Transport) : Exec :=
  incoming_packet_received (reader t).

(** What a user of the driver and the event loop do to it, one at a time. *)
Inductive Op :=
| SendCommand (packet : list byte)
| SendAcl (packet : list byte)
| SendSco (packet : list byte)
| WriteReady.

Definition run_op (write : list byte -> Z) (op : Op) (t : Transport) : Outcome :=
  match op with
  | SendCommand p => sendHciCommand p t
  | SendAcl p => sendAclData p t
  | SendSco p => sendScoData p t
  | WriteReady => write_ready write t
  end.

Fixpoint run_ops (write : list byte -> Z) (ops : list Op) (t : Transport) : Outcome :=
  match ops with
  | [] => Done t
  | op :: ops =>
    match run_op write op t with
    | Done t => run_ops write ops t
    | r => r
    end
  end.

(** The frame an operation queues, tag first. *)
Definition frame_of (op : Op) : list (list byte) :=
  match op with
  | SendCommand p => [kH4Command :: p]
  | SendAcl p => [kH4Acl :: p]
  | SendSco p => [kH4Sco :: p]
  | WriteReady => []
  end.

(** The capture an operation records. *)
Definition capture_of (op : Op) : list Effect :=
  match op with
  | SendCommand p => [capture p OUTGOING CMD]
  | SendAcl p => [capture p OUTGOING ACL]
  | SendSco p => [capture p OUTGOING SCO]
  | WriteReady => []
  end.

(** A started driver whose write callback is installed exactly while frames
    are queued. *)
Definition started (t : Transport) : Prop :=
  connected t = true /\ btsnoop_logger_ t = Live /\
  reactable_ t = Some (negb (bool_decide (hci_outgoing_queue_ t = []))).

(** [write] when the socket takes every buffer whole. *)
Definition write_all (buffer : list byte) : Z := Z.of_nat (length buffer).

(** Sample states for the further runs. *)
Definition sample_socket : Socket := {| arrived := []; peer_closed := false |}.

Definition started_transport (queue : list (list byte)) : Transport :=
  {| reader := driver_with [];
     connected := true;
     reactable_ := Some (negb (bool_decide (queue = [])));
     btsnoop_logger_ := Live;
     hci_outgoing_queue_ := queue;
     wire := [] |}.

End Hal.

(** ** The LE address manager *)

Module Hci.

Definition BLE_ADDR_MASK : Z := 0xc0.

(** [hci::Address]: six octets, [address[0]] first. *)
Abbreviation Address := (list Z) (only parsing).
Abbreviation Octet16 := (list Z) (only parsing).

(** A client is known by the value of its [LeAddressManagerCallback*]. *)
Abbreviation LeAddressManagerCallback := nat (only parsing).

Inductive AddressPolicy :=
| POLICY_NOT_SET
| USE_PUBLIC_ADDRESS
| USE_STATIC_ADDRESS
| USE_NON_RESOLVABLE_ADDRESS
| USE_RESOLVABLE_ADDRESS.

Inductive ClientState := WAITING_FOR_PAUSE | PAUSED | WAITING_FOR_RESUME | RESUMED.

Inductive CommandType :=
| ROTATE_RANDOM_ADDRESS
| ADD_DEVICE_TO_CONNECT_LIST
| REMOVE_DEVICE_FROM_CONNECT_LIST
| CLEAR_CONNECT_LIST
| ADD_DEVICE_TO_RESOLVING_LIST
| REMOVE_DEVICE_FROM_RESOLVING_LIST
| CLEAR_RESOLVING_LIST.

Inductive AddressType :=
| PUBLIC_DEVICE_ADDRESS
| RANDOM_DEVICE_ADDRESS
| PUBLIC_IDENTITY_ADDRESS
| RANDOM_IDENTITY_ADDRESS.

#[global] Instance AddressPolicy_eq_dec : EqDecision AddressPolicy.
Proof. solve_decision. Defined.
#[global] Instance ClientState_eq_dec : EqDecision ClientState.
Proof. solve_decision. Defined.
#[global] Instance CommandType_eq_dec : EqDecision CommandType.
Proof. solve_decision. Defined.

Record AddressWithType := { GetAddress : Address; GetAddressType : AddressType }.

(** The command packets the manager builds; their encoding is the codec's. *)
Inductive CommandPacketBuilder :=
| LeSetRandomAddressBuilder (random_address : Address)
| LeAddDeviceToConnectListBuilder (address_type : Z) (address : Address)
| LeRemoveDeviceFromConnectListBuilder (address_type : Z) (address : Address)
| LeClearConnectListBuilder
| LeAddDeviceToResolvingListBuilder
    (peer_identity_address_type : Z) (peer_identity_address : Address)
    (peer_irk local_irk : Octet16)
| LeRemoveDeviceFromResolvingListBuilder
    (peer_identity_address_type : Z) (peer_identity_address : Address)
| LeClearResolvingListBuilder.

(** [struct Command]: the packet is a [unique_ptr], null for a rotation. *)
Record Command := {
  command_type : CommandType;
  command_packet : option CommandPacketBuilder
}.

Inductive OpCode :=
| LE_SET_RANDOM_ADDRESS
| LE_ADD_DEVICE_TO_CONNECT_LIST
| LE_REMOVE_DEVICE_FROM_CONNECT_LIST
| LE_CLEAR_CONNECT_LIST
| LE_ADD_DEVICE_TO_RESOLVING_LIST
| LE_REMOVE_DEVICE_FROM_RESOLVING_LIST
| LE_CLEAR_RESOLVING_LIST
| OTHER_OP_CODE (code : Z).

Inductive ErrorCode := SUCCESS | ERROR_CODE (code : Z).

#[global] Instance OpCode_eq_dec : EqDecision OpCode.
Proof. solve_decision. Defined.
#[global] Instance ErrorCode_eq_dec : EqDecision ErrorCode.
Proof. solve_decision. Defined.

(** Modelled from the spec: the packet views are generated code that is not
    among the sources; an event is an opaque object that decodes or not and
    reports a status.  The record holds what the manager reads off a
    [CommandCompleteView]: whether it is valid, its opcode, and what
    [LeSetRandomAddressCompleteView::Create(view)] gives: [None] when that
    specialised view is not valid, else its status. *)
Record CommandCompleteView := {
  IsValid : bool;
  GetCommandOpCode : OpCode;
  LeSetRandomAddressComplete : option ErrorCode
}.

(** The member functions that are bound on the handler and invoked. *)
Inductive Task :=
| register_client_task (callback : LeAddressManagerCallback)
| unregister_client_task (callback : LeAddressManagerCallback)
| ack_pause_task (callback : LeAddressManagerCallback)
| ack_resume_task (callback : LeAddressManagerCallback)
| pause_registered_clients_task
| resume_registered_clients_task
| handle_next_command_task
| prepare_to_rotate_task
| enqueue_command_task (packet : CommandPacketBuilder).

(** Calls that leave the manager, in program order. *)
Inductive Effect :=
| OnPause (client : LeAddressManagerCallback)
| OnResume (client : LeAddressManagerCallback)
| enqueue_command (packet : option CommandPacketBuilder)
| alarm_Schedule (delay_ms : Z)
| alarm_Cancel
| LOG_ERROR (msg : string).

(** The manager object.  The client table is declared in the header, which is
    not among the sources; it is keyed by the callback pointer and the order
    in which a loop visits it is that of [map_to_list], on which no property
    below depends.  [handler_] holds the closures posted to the handler and
    not yet run, oldest first; [random_drawn] counts the values taken from
    the random source; [trace] records the calls made so far. *)
Record LeAddressManager := {
  public_address_ : Address;
  address_policy_ : AddressPolicy;
  le_address_ : AddressWithType;
  registered_clients_ : gmap nat ClientState;
  cached_commands_ : list Command;
  rotation_irk_ : Octet16;
  minimum_rotation_time_ : Z;
  maximum_rotation_time_ : Z;
  address_rotation_alarm_ : bool;         (* the pointer is not null *)
  handler_ : list Task;
  random_drawn : nat;
  trace : list Effect
}.

Definition set_address_policy (v : AddressPolicy) (m : LeAddressManager) :=
  {| public_address_ := public_address_ m; address_policy_ := v;
     le_address_ := le_address_ m; registered_clients_ := registered_clients_ m;
     cached_commands_ := cached_commands_ m; rotation_irk_ := rotation_irk_ m;
     minimum_rotation_time_ := minimum_rotation_time_ m;
     maximum_rotation_time_ := maximum_rotation_time_ m;
     address_rotation_alarm_ := address_rotation_alarm_ m;
     handler_ := handler_ m; random_drawn := random_drawn m; trace := trace m |}.

Definition set_le_address (v : AddressWithType) (m : LeAddressManager) :=
  {| public_address_ := public_address_ m; address_policy_ := address_policy_ m;
     le_address_ := v; registered_clients_ := registered_clients_ m;
     cached_commands_ := cached_commands_ m; rotation_irk_ := rotation_irk_ m;
     minimum_rotation_time_ := minimum_rotation_time_ m;
     maximum_rotation_time_ := maximum_rotation_time_ m;
     address_rotation_alarm_ := address_rotation_alarm_ m;
     handler_ := handler_ m; random_drawn := random_drawn m; trace := trace m |}.

Definition set_registered_clients (v : gmap nat ClientState) (m : LeAddressManager) :=
  {| public_address_ := public_address_ m; address_policy_ := address_policy_ m;
     le_address_ := le_address_ m; registered_clients_ := v;
     cached_commands_ := cached_commands_ m; rotation_irk_ := rotation_irk_ m;
     minimum_rotation_time_ := minimum_rotation_time_ m;
     maximum_rotation_time_ := maximum_rotation_time_ m;
     address_rotation_alarm_ := address_rotation_alarm_ m;
     handler_ := handler_ m; random_drawn := random_drawn m; trace := trace m |}.

Definition set_cached_commands (v : list Command) (m : LeAddressManager) :=
  {| public_address_ := public_address_ m; address_policy_ := address_policy_ m;
     le_address_ := le_address_ m; registered_clients_ := registered_clients_ m;
     cached_commands_ := v; rotation_irk_ := rotation_irk_ m;
     minimum_rotation_time_ := minimum_rotation_time_ m;
     maximum_rotation_time_ := maximum_rotation_time_ m;
     address_rotation_alarm_ := address_rotation_alarm_ m;
     handler_ := handler_ m; random_drawn := random_drawn m; trace := trace m |}.

Definition set_rotation (irk : Octet16) (min max : Z) (alarm : bool)
    (m : LeAddressManager) :=
  {| public_address_ := public_address_ m; address_policy_ := address_policy_ m;
     le_address_ := le_address_ m; registered_clients_ := registered_clients_ m;
     cached_commands_ := cached_commands_ m; rotation_irk_ := irk;
     minimum_rotation_time_ := min; maximum_rotation_time_ := max;
     address_rotation_alarm_ := alarm;
     handler_ := handler_ m; random_drawn := random_drawn m; trace := trace m |}.

Definition set_handler (v : list Task) (m : LeAddressManager) :=
  {| public_address_ := public_address_ m; address_policy_ := address_policy_ m;
     le_address_ := le_address_ m; registered_clients_ := registered_clients_ m;
     cached_commands_ := cached_commands_ m; rotation_irk_ := rotation_irk_ m;
     minimum_rotation_time_ := minimum_rotation_time_ m;
     maximum_rotation_time_ := maximum_rotation_time_ m;
     address_rotation_alarm_ := address_rotation_alarm_ m;
     handler_ := v; random_drawn := random_drawn m; trace := trace m |}.

Definition set_random_drawn (v : nat) (m : LeAddressManager) :=
  {| public_address_ := public_address_ m; address_policy_ := address_policy_ m;
     le_address_ := le_address_ m; registered_clients_ := registered_clients_ m;
     cached_commands_ := cached_commands_ m; rotation_irk_ := rotation_irk_ m;
     minimum_rotation_time_ := minimum_rotation_time_ m;
     maximum_rotation_time_ := maximum_rotation_time_ m;
     address_rotation_alarm_ := address_rotation_alarm_ m;
     handler_ := handler_ m; random_drawn := v; trace := trace m |}.

Definition emit (e : Effect) (m : LeAddressManager) :=
  {| public_address_ := public_address_ m; address_policy_ := address_policy_ m;
     le_address_ := le_address_ m; registered_clients_ := registered_clients_ m;
     cached_commands_ := cached_commands_ m; rotation_irk_ := rotation_irk_ m;
     minimum_rotation_time_ := minimum_rotation_time_ m;
     maximum_rotation_time_ := maximum_rotation_time_ m;
     address_rotation_alarm_ := address_rotation_alarm_ m;
     handler_ := handler_ m; random_drawn := random_drawn m;
     trace := trace m ++ [e] |}.

(** Modelled from the spec: [os::Handler] is not among the sources; it is the
    single execution context through which the manager's entry points are
    serialized.  [handler_->BindOnceOn(this, f, args...).Invoke()] posts the
    bound call to it, and it runs posted closures one at a time, in the order
    they were posted. *)
Definition post (t : Task) (m : LeAddressManager) : LeAddressManager :=
  set_handler (handler_ m ++ [t]) m.

(** How a member function ends: it returns, a fatal assertion or
    [LOG_ALWAYS_FATAL] stops the process, the step has no defined behaviour in
    C++, or a loop has not finished within the iterations allowed. *)
Inductive Result (A : Type) :=
| Ok (a : A)
| Fatal (msg : string)
| Undefined (what : string)
| Unfinished.
Arguments Ok {A} a.
Arguments Fatal {A} msg.
Arguments Undefined {A} what.
Arguments Unfinished {A}.

Definition in_int64 (z : Z) : bool := (- 2 ^ 63 <=? z) && (z <? 2 ^ 63).

Section manager.

(** The platform the manager is built on and that is not part of it:
    [random n] is the [n]-th value the random source yields (a byte of
    [os::GenerateRandom<N>()] is the value modulo 256, the [uint32_t] of
    [os::GenerateRandom()] the value modulo 2^32), and [aes_128] is
    [crypto_toolbox::aes_128]. *)
Variable random : nat -> Z.
Variable aes_128 : Octet16 -> list Z -> Octet16.

(** [os::GenerateRandom()] *)
Definition GenerateRandom (m : LeAddressManager) : Z * LeAddressManager :=
  (random (random_drawn m) mod 2 ^ 32, set_random_drawn (S (random_drawn m)) m).

(** [os::GenerateRandom<SIZE>()] *)
Definition GenerateRandomBytes (SIZE : nat) (m : LeAddressManager)
    : list Z * LeAddressManager :=
  (map (fun i => random (random_drawn m + i)%nat mod 256) (seq 0 SIZE),
   set_random_drawn (random_drawn m + SIZE)%nat m).

(** [x &= ~BLE_ADDR_MASK] on a [uint8_t]. *)
Definition clear_addr_mask (x : Z) : Z := Z.land x (Z.lnot BLE_ADDR_MASK) mod 256.

(** [(uint8_t)(os::GenerateRandom() % 0xFE + 1)] *)
Definition random_octet (m : LeAddressManager) : Z * LeAddressManager :=
  let '(r, m) := GenerateRandom m in ((r mod 0xFE + 1) mod 256, m).

Definition generate_rpa (m : LeAddressManager) : Address * LeAddressManager :=
  let '(prand, m) := GenerateRandomBytes 3 m in
  let BLE_RESOLVE_ADDR_MSB := 0x40 in
  let prand := <[2%nat := clear_addr_mask (nth 2 prand 0)]> prand in
  let '(prand, m) :=
    if ((nth 0 prand 0 =? 0x00) && (nth 1 prand 0 =? 0x00) && (nth 2 prand 0 =? 0x00))
       || ((nth 0 prand 0 =? 0xFF) && (nth 1 prand 0 =? 0xFF) && (nth 2 prand 0 =? 0x3F))
    then let '(v, m) := random_octet m in (<[0%nat := v]> prand, m)
    else (prand, m) in
  let prand := <[2%nat := Z.lor (nth 2 prand 0) BLE_RESOLVE_ADDR_MSB]> prand in
  let address := replicate 6 0 in
  let address := <[3%nat := nth 0 prand 0]> address in
  let address := <[4%nat := nth 1 prand 0]> address in
  let address := <[5%nat := nth 2 prand 0]> address in
  (* encrypt with IRK *)
  let p := aes_128 (rotation_irk_ m) prand in
  (* set hash to be LSB of rpAddress *)
  let address := <[0%nat := nth 0 p 0]> address in
  let address := <[1%nat := nth 1 p 0]> address in
  let address := <[2%nat := nth 2 p 0]> address in
  (address, m).

(** [while (address == public_address_) { address.address[0] = ...; }],
    run for at most [fuel] iterations. *)
Fixpoint redraw_while_public (fuel : nat) (address : Address)
    (m : LeAddressManager) : option (Address * LeAddressManager) :=
  if bool_decide (address = public_address_ m) then
    match fuel with
    | O => None
    | S fuel =>
        let '(v, m) := random_octet m in
        redraw_while_public fuel (<[0%nat := v]> address) m
    end
  else Some (address, m).

Definition generate_nrpa (fuel : nat) (m : LeAddressManager)
    : option (Address * LeAddressManager) :=
  let '(random, m) := GenerateRandomBytes 6 m in
  let random := <[5%nat := clear_addr_mask (nth 5 random 0)]> random in
  let '(random, m) :=
    if ((nth 0 random 0 =? 0x00) && (nth 1 random 0 =? 0x00)
        && (nth 2 random 0 =? 0x00) && (nth 3 random 0 =? 0x00)
        && (nth 4 random 0 =? 0x00) && (nth 5 random 0 =? 0x00))
       || ((nth 0 random 0 =? 0xFF) && (nth 1 random 0 =? 0xFF)
           && (nth 2 random 0 =? 0xFF) && (nth 3 random 0 =? 0xFF)
           && (nth 4 random 0 =? 0xFF) && (nth 5 random 0 =? 0x3F))
    then let '(v, m) := random_octet m in (<[0%nat := v]> random, m)
    else (random, m) in
  let address := random in
  (* the address shall not be equal to the public address *)
  redraw_while_public fuel address m.

(** The rotation times are [std::chrono::milliseconds], a signed 64-bit
    count; [%] is C++ remainder ([Z.rem]), without a defined result for a zero
    divisor, as signed arithmetic is without one outside the 64-bit range. *)
Definition get_next_private_address_interval_ms (m : LeAddressManager)
    : option (Z * LeAddressManager) :=
  let interval_random_part_max_ms :=
    maximum_rotation_time_ m - minimum_rotation_time_ m in
  let '(r, m') := GenerateRandom m in
  if negb (in_int64 interval_random_part_max_ms) then None
  else if interval_random_part_max_ms =? 0 then None
  else
    let random_ms := Z.rem r interval_random_part_max_ms in
    let next := minimum_rotation_time_ m + random_ms in
    if in_int64 next then Some (next, m') else None.

Definition pause_registered_clients (m : LeAddressManager) : LeAddressManager :=
  fold_left
    (fun m (client : nat * ClientState) =>
       if bool_decide (client.2 <> PAUSED)
          && bool_decide (client.2 <> WAITING_FOR_PAUSE)
       then
         (* [for (auto client : ...)]: the assignment is to the loop's copy *)
         let client := (client.1, WAITING_FOR_PAUSE) in
         emit (OnPause client.1) m
       else m)
    (map_to_list (registered_clients_ m)) m.

Definition prepare_to_rotate (m : LeAddressManager) : LeAddressManager :=
  let command := {| command_type := ROTATE_RANDOM_ADDRESS; command_packet := None |} in
  let m := set_cached_commands (cached_commands_ m ++ [command]) m in
  pause_registered_clients m.

Definition is_rotating (p : AddressPolicy) : bool :=
  bool_decide (p = USE_RESOLVABLE_ADDRESS)
  || bool_decide (p = USE_NON_RESOLVABLE_ADDRESS).

Definition rotate_random_address (fuel : nat) (m : LeAddressManager)
    : Result LeAddressManager :=
  if bool_decide (address_policy_ m <> USE_RESOLVABLE_ADDRESS)
     && bool_decide (address_policy_ m <> USE_NON_RESOLVABLE_ADDRESS)
  then Ok m
  else if negb (address_rotation_alarm_ m)
  then Undefined "address_rotation_alarm_ is null"
  else
    match get_next_private_address_interval_ms m with
    | None => Undefined "get_next_private_address_interval_ms"
    | Some (delay, m) =>
      let m := emit (alarm_Schedule delay) m in
      let generated :=
        if bool_decide (address_policy_ m = USE_RESOLVABLE_ADDRESS)
        then Some (generate_rpa m)
        else generate_nrpa fuel m in
      match generated with
      | None => Unfinished
      | Some (address, m) =>
        let packet := LeSetRandomAddressBuilder address in
        let m := emit (enqueue_command (Some packet)) m in
        Ok (set_le_address
              {| GetAddress := address; GetAddressType := RANDOM_DEVICE_ADDRESS |} m)
      end
    end.

Definition handle_next_command (fuel : nat) (m : LeAddressManager)
    : Result LeAddressManager :=
  match cached_commands_ m with
  | [] => Fatal "!cached_commands_.empty()"
  | command :: rest =>
    let m := set_cached_commands rest m in
    if bool_decide (command_type command = ROTATE_RANDOM_ADDRESS)
    then rotate_random_address fuel m
    else Ok (emit (enqueue_command (command_packet command)) m)
  end.

Definition register_client (callback : LeAddressManagerCallback)
    (m : LeAddressManager) : LeAddressManager :=
  (* [std::map::insert] keeps an entry that is already there *)
  let clients :=
    match registered_clients_ m !! callback with
    | Some _ => registered_clients_ m
    | None => <[callback := RESUMED]> (registered_clients_ m)
    end in
  let m := set_registered_clients clients m in
  if bool_decide (address_policy_ m = POLICY_NOT_SET)
     || bool_decide (address_policy_ m = USE_RESOLVABLE_ADDRESS)
     || bool_decide (address_policy_ m = USE_NON_RESOLVABLE_ADDRESS)
  then prepare_to_rotate m
  else m.

Definition unregister_client (callback : LeAddressManagerCallback)
    (m : LeAddressManager) : LeAddressManager :=
  let m := set_registered_clients (delete callback (registered_clients_ m)) m in
  if bool_decide (registered_clients_ m = ∅) && address_rotation_alarm_ m
  then emit alarm_Cancel m
  else m.

Definition all_paused (clients : gmap nat ClientState) : bool :=
  forallb (fun client : nat * ClientState => bool_decide (client.2 = PAUSED))
          (map_to_list clients).

Definition ack_pause (fuel : nat) (callback : LeAddressManagerCallback)
    (m : LeAddressManager) : Result LeAddressManager :=
  match registered_clients_ m !! callback with
  | None => Fatal "registered_clients_.find(callback) != registered_clients_.end()"
  | Some _ =>
    let m := set_registered_clients
               (<[callback := PAUSED]> (registered_clients_ m)) m in
    (* make sure all client paused *)
    if all_paused (registered_clients_ m)
    then handle_next_command fuel m
    else Ok m
  end.

Definition resume_registered_clients (fuel : nat) (m : LeAddressManager)
    : Result LeAddressManager :=
  (* Do not resume clients if cached command is not empty *)
  if negb (bool_decide (cached_commands_ m = []))
  then handle_next_command fuel m
  else
    Ok (fold_left
          (fun m (client : nat * ClientState) =>
             (* the assignment is to the loop's copy, as in the pause loop *)
             let client := (client.1, WAITING_FOR_RESUME) in
             emit (OnResume client.1) m)
          (map_to_list (registered_clients_ m)) m).

Definition ack_resume (callback : LeAddressManagerCallback)
    (m : LeAddressManager) : Result LeAddressManager :=
  match registered_clients_ m !! callback with
  | None => Fatal "registered_clients_.find(callback) != registered_clients_.end()"
  | Some _ =>
    Ok (set_registered_clients
          (<[callback := RESUMED]> (registered_clients_ m)) m)
  end.

(** The public entry points bind the member function on the handler and
    invoke it; what they return is computed before the posted call runs. *)
Definition Register (callback : LeAddressManagerCallback) (m : LeAddressManager)
    : AddressPolicy * LeAddressManager :=
  let m := post (register_client_task callback) m in
  (address_policy_ m, m).

Definition Unregister (callback : LeAddressManagerCallback) (m : LeAddressManager) :=
  post (unregister_client_task callback) m.

Definition AckPause (callback : LeAddressManagerCallback) (m : LeAddressManager) :=
  post (ack_pause_task callback) m.

Definition AckResume (callback : LeAddressManagerCallback) (m : LeAddressManager) :=
  post (ack_resume_task callback) m.

Definition GetCurrentAddress (m : LeAddressManager) : Result AddressWithType :=
  if bool_decide (address_policy_ m = POLICY_NOT_SET)
  then Fatal "address_policy_ != AddressPolicy::POLICY_NOT_SET"
  else Ok (le_address_ m).

Definition GetAnotherAddress (m : LeAddressManager)
    : Result (AddressWithType * LeAddressManager) :=
  if negb (bool_decide (address_policy_ m = USE_NON_RESOLVABLE_ADDRESS)
           || bool_decide (address_policy_ m = USE_RESOLVABLE_ADDRESS))
  then Fatal "address_policy_ is neither non-resolvable nor resolvable"
  else
    let '(address, m) := generate_rpa m in
    let random_address :=
      {| GetAddress := address; GetAddressType := RANDOM_DEVICE_ADDRESS |} in
    Ok (random_address, m).

(** The list mutators: the pause is posted, then the command is cached. *)
Definition cache_after_posting_pause (command : Command) (m : LeAddressManager) :=
  let m := post pause_registered_clients_task m in
  set_cached_commands (cached_commands_ m ++ [command]) m.

Definition AddDeviceToConnectList (connect_list_address_type : Z)
    (address : Address) (m : LeAddressManager) :=
  let packet_builder :=
    LeAddDeviceToConnectListBuilder connect_list_address_type address in
  cache_after_posting_pause
    {| command_type := ADD_DEVICE_TO_CONNECT_LIST;
       command_packet := Some packet_builder |} m.

Definition AddDeviceToResolvingList (peer_identity_address_type : Z)
    (peer_identity_address : Address) (peer_irk local_irk : Octet16)
    (m : LeAddressManager) :=
  let packet_builder :=
    LeAddDeviceToResolvingListBuilder
      peer_identity_address_type peer_identity_address peer_irk local_irk in
  cache_after_posting_pause
    {| command_type := ADD_DEVICE_TO_RESOLVING_LIST;
       command_packet := Some packet_builder |} m.

Definition RemoveDeviceFromConnectList (connect_list_address_type : Z)
    (address : Address) (m : LeAddressManager) :=
  let packet_builder :=
    LeRemoveDeviceFromConnectListBuilder connect_list_address_type address in
  cache_after_posting_pause
    {| command_type := REMOVE_DEVICE_FROM_CONNECT_LIST;
       command_packet := Some packet_builder |} m.

Definition RemoveDeviceFromResolvingList (peer_identity_address_type : Z)
    (peer_identity_address : Address) (m : LeAddressManager) :=
  let packet_builder :=
    LeRemoveDeviceFromResolvingListBuilder
      peer_identity_address_type peer_identity_address in
  cache_after_posting_pause
    {| command_type := REMOVE_DEVICE_FROM_RESOLVING_LIST;
       command_packet := Some packet_builder |} m.

Definition ClearConnectList (m : LeAddressManager) :=
  cache_after_posting_pause
    {| command_type := CLEAR_CONNECT_LIST;
       command_packet := Some LeClearConnectListBuilder |} m.

Definition ClearResolvingList (m : LeAddressManager) :=
  cache_after_posting_pause
    {| command_type := CLEAR_RESOLVING_LIST;
       command_packet := Some LeClearResolvingListBuilder |} m.

Definition on_le_set_random_address_complete (view : CommandCompleteView)
    (m : LeAddressManager) : Result LeAddressManager :=
  match LeSetRandomAddressComplete view with
  | None =>
    Fatal "Received on_le_set_random_address_complete with invalid packet"
  | Some status =>
    if bool_decide (status <> SUCCESS)
    then Fatal "Received on_le_set_random_address_complete with error code"
    else if bool_decide (cached_commands_ m = [])
    then Ok (post resume_registered_clients_task m)
    else Ok (post handle_next_command_task m)
  end.

Definition OnCommandComplete (view : CommandCompleteView) (m : LeAddressManager)
    : LeAddressManager :=
  if negb (IsValid view)
  then emit (LOG_ERROR "Received command complete with invalid packet") m
  else
    (* The command was sent before any client registered *)
    if bool_decide (GetCommandOpCode view = LE_SET_RANDOM_ADDRESS)
       && bool_decide (address_policy_ m = USE_STATIC_ADDRESS)
    then m
    else if bool_decide (cached_commands_ m = [])
    then post resume_registered_clients_task m
    else post handle_next_command_task m.

(** Aborts if called more than once *)
Definition SetPrivacyPolicyForInitiatorAddress (address_policy : AddressPolicy)
    (fixed_address : AddressWithType) (rotation_irk : Octet16)
    (minimum_rotation_time maximum_rotation_time : Z)
    (m : LeAddressManager) : Result LeAddressManager :=
  if bool_decide (address_policy_ m <> POLICY_NOT_SET)
  then Fatal "address_policy_ == AddressPolicy::POLICY_NOT_SET"
  else if bool_decide (address_policy = POLICY_NOT_SET)
  then Fatal "address_policy != AddressPolicy::POLICY_NOT_SET"
  else if negb (bool_decide (registered_clients_ m = ∅))
  then Fatal "Policy must be set before clients are registered."
  else
    let m := set_address_policy address_policy m in
    match address_policy with
    | USE_PUBLIC_ADDRESS => Ok (set_le_address fixed_address m)
    | USE_STATIC_ADDRESS =>
      let address := GetAddress fixed_address in
      if negb (Z.land (nth 5 address 0) BLE_ADDR_MASK =? BLE_ADDR_MASK)
      then Fatal "The two most significant bits shall be equal to 1"
      else if ((nth 0 address 0 =? 0x00) && (nth 1 address 0 =? 0x00)
               && (nth 2 address 0 =? 0x00) && (nth 3 address 0 =? 0x00)
               && (nth 4 address 0 =? 0x00) && (nth 5 address 0 =? BLE_ADDR_MASK))
              || ((nth 0 address 0 =? 0xFF) && (nth 1 address 0 =? 0xFF)
                  && (nth 2 address 0 =? 0xFF) && (nth 3 address 0 =? 0xFF)
                  && (nth 4 address 0 =? 0xFF) && (nth 5 address 0 =? 0xFF))
      then Fatal "Bits of the random part of the address shall not be all 1 or all 0"
      else
        let m := set_le_address fixed_address m in
        let packet := LeSetRandomAddressBuilder (GetAddress (le_address_ m)) in
        Ok (post (enqueue_command_task packet) m)
    | USE_NON_RESOLVABLE_ADDRESS
    | USE_RESOLVABLE_ADDRESS =>
      Ok (set_rotation rotation_irk minimum_rotation_time maximum_rotation_time
                       true m)
    | POLICY_NOT_SET => Fatal "invalid parameters"
    end.

(** One closure run by the handler. *)
Definition run_task (fuel : nat) (t : Task) (m : LeAddressManager)
    : Result LeAddressManager :=
  match t with
  | register_client_task callback => Ok (register_client callback m)
  | unregister_client_task callback => Ok (unregister_client callback m)
  | ack_pause_task callback => ack_pause fuel callback m
  | ack_resume_task callback => ack_resume callback m
  | pause_registered_clients_task => Ok (pause_registered_clients m)
  | resume_registered_clients_task => resume_registered_clients fuel m
  | handle_next_command_task => handle_next_command fuel m
  | prepare_to_rotate_task => Ok (prepare_to_rotate m)
  | enqueue_command_task packet => Ok (emit (enqueue_command (Some packet)) m)
  end.

Fixpoint run_tasks (fuel : nat) (ts : list Task) (m : LeAddressManager)
    : Result LeAddressManager :=
  match ts with
  | [] => Ok m
  | t :: ts =>
    match run_task fuel t m with
    | Ok m => run_tasks fuel ts m
    | r => r
    end
  end.

(** The handler runs what has been posted so far, oldest first. *)
Definition run_posted (fuel : nat) (m : LeAddressManager) : Result LeAddressManager :=
  run_tasks fuel (handler_ m) (set_handler [] m).

End manager.

(** The constructor.  The members it does not initialise take the values of
    the header, which is not among the sources: no policy yet (the policy
    setter asserts [POLICY_NOT_SET] on its first call), no client, nothing
    cached, no alarm. *)
Definition new_LeAddressManager (public_address : Address) : LeAddressManager :=
  {| public_address_ := public_address;
     address_policy_ := POLICY_NOT_SET;
     le_address_ := {| GetAddress := replicate 6 0;
                       GetAddressType := PUBLIC_DEVICE_ADDRESS |};
     registered_clients_ := ∅;
     cached_commands_ := [];
     rotation_irk_ := replicate 16 0;
     minimum_rotation_time_ := 0;
     maximum_rotation_time_ := 0;
     address_rotation_alarm_ := false;
     handler_ := [];
     random_drawn := 0;
     trace := [] |}.

(** *** Vocabulary of the properties *)

(** The random bits of a resolvable address are [prand], octets 3 to 5, less
    the two type bits at the top of octet 5; those of a non-resolvable address
    are the whole address less the same two bits. *)
Definition rpa_random_bits (a : Address) : list Z :=
  [nth 3 a 0; nth 4 a 0; Z.land (nth 5 a 0) 0x3F].

Definition nrpa_random_bits (a : Address) : list Z :=
  [nth 0 a 0; nth 1 a 0; nth 2 a 0; nth 3 a 0; nth 4 a 0; Z.land (nth 5 a 0) 0x3F].

Definition all_zero (bits : list Z) : bool := forallb (fun x => x =? 0) bits.

(** All ones: [0xFF] in every octet but the last, which has six bits. *)
Definition all_one (bits : list Z) : bool :=
  bool_decide (bits = replicate (length bits - 1) 0xFF ++ [0x3F]).

(** The octet [(uint8_t)(r % 0xFE + 1)] for the [n]-th value of a random
    source. *)
Definition redrawn_octet (random : nat -> Z) (n : nat) : Z :=
  ((random n mod 2 ^ 32) mod 0xFE + 1) mod 256.


(** The test of the pause loop on one entry of the client table. *)
Definition wants_pause (client : nat * ClientState) : bool :=
  bool_decide (client.2 <> PAUSED) && bool_decide (client.2 <> WAITING_FOR_PAUSE).

(** The manager after it has made the calls [es]. *)
Definition emit_all (es : list Effect) (m : LeAddressManager) :=
  {| public_address_ := public_address_ m; address_policy_ := address_policy_ m;
     le_address_ := le_address_ m; registered_clients_ := registered_clients_ m;
     cached_commands_ := cached_commands_ m; rotation_irk_ := rotation_irk_ m;
     minimum_rotation_time_ := minimum_rotation_time_ m;
     maximum_rotation_time_ := maximum_rotation_time_ m;
     address_rotation_alarm_ := address_rotation_alarm_ m;
     handler_ := handler_ m; random_drawn := random_drawn m;
     trace := trace m ++ es |}.

(** The commands handed to the controller and the clients told to resume,
    among some calls. *)
Definition submitted (es : list Effect) : list (option CommandPacketBuilder) :=
  omap (fun e => match e with enqueue_command p => Some p | _ => None end) es.

Definition resumed (es : list Effect) : list LeAddressManagerCallback :=
  omap (fun e => match e with OnResume c => Some c | _ => None end) es.

Definition paused (es : list Effect) : list LeAddressManagerCallback :=
  omap (fun e => match e with OnPause c => Some c | _ => None end) es.

(** *** Sample platform and states, for concrete runs *)

Definition sample_random (n : nat) : Z := Z.of_nat n * 37 + 5.
Definition sample_aes_128 (key plaintext : list Z) : list Z := replicate 16 0xA5.
Definition sample_public_address : Address := [0x11; 0x22; 0x33; 0x44; 0x55; 0x66].

(** A manager whose policy has been set to resolvable addresses rotated
    every 1000 to 2000 ms. *)
Definition resolvable_manager : LeAddressManager :=
  set_rotation (replicate 16 0x01) 1000 2000 true
    (set_address_policy USE_RESOLVABLE_ADDRESS
       (new_LeAddressManager sample_public_address)).


(** Client 7 is registered and Paused, and [commands] are cached. *)
Definition with_paused_client (commands : list Command) (m : LeAddressManager) :=
  set_cached_commands commands (set_registered_clients {[ 7%nat := PAUSED ]} m).

Definition rotate_command : Command :=
  {| command_type := ROTATE_RANDOM_ADDRESS; command_packet := None |}.

Definition clear_connect_list_command : Command :=
  {| command_type := CLEAR_CONNECT_LIST;
     command_packet := Some LeClearConnectListBuilder |}.

Definition complete_view (op : OpCode) (status : ErrorCode) : CommandCompleteView :=
  {| IsValid := true; GetCommandOpCode := op;
     LeSetRandomAddressComplete := Some status |}.

Definition invalid_view : CommandCompleteView :=
  {| IsValid := false; GetCommandOpCode := OTHER_OP_CODE 0;
     LeSetRandomAddressComplete := None |}.

(** Running an entry point on the result of the previous one and letting
    the handler run what was posted. *)
Definition and_then (r : Result LeAddressManager)
    (entry : LeAddressManager -> LeAddressManager) : Result LeAddressManager :=
  match r with
  | Ok m => run_posted sample_random sample_aes_128 0 (entry m)
  | r => r
  end.

(** No policy is ever set.  A connect-list clear is requested, client 7
    registers and acknowledges the pause it was asked for, which issues the
    clear; then the controller confirms the clear. *)
Definition clear_issued_before_policy : Result LeAddressManager :=
  and_then
    (and_then
       (and_then (Ok (new_LeAddressManager sample_public_address))
                 ClearConnectList)
       (fun m => (Register 7 m).2))
    (AckPause 7).

Definition clear_confirmed_before_policy : Result LeAddressManager :=
  and_then clear_issued_before_policy
           (OnCommandComplete (complete_view LE_CLEAR_CONNECT_LIST SUCCESS)).

(** The policy is set to resolvable addresses, then client 7 registers,
    acknowledges the pause, and the controller confirms the address that was
    set. *)
Definition first_registration : Result LeAddressManager :=
  and_then (Ok resolvable_manager) (fun m => (Register 7 m).2).

Definition first_pause_acknowledged : Result LeAddressManager :=
  and_then first_registration (AckPause 7).

Definition first_rotation_confirmed : Result LeAddressManager :=
  and_then first_pause_acknowledged
           (OnCommandComplete (complete_view LE_SET_RANDOM_ADDRESS SUCCESS)).


(** The controller confirms the first address, and a connect-list clear is
    requested before the handler runs what the completion posted. *)
Definition clear_requested_at_confirmation : Result LeAddressManager :=
  and_then first_pause_acknowledged
           (fun m => ClearConnectList
                       (OnCommandComplete
                          (complete_view LE_SET_RANDOM_ADDRESS SUCCESS) m)).

(** *** Repeated completions and more vocabulary *)

Section manager_runs.

Variable random : nat -> Z.
Variable aes_128 : Octet16 -> list Z -> Octet16.

(** One completion event after the other, the handler running what each
    one posts before the next arrives. *)
Fixpoint complete_each (fuel : nat) (views : list CommandCompleteView)
    (m : LeAddressManager) : Result LeAddressManager :=
  match views with
  | [] => Ok m
  | view :: views =>
    match run_posted random aes_128 fuel (OnCommandComplete view m) with
    | Ok m => complete_each fuel views m
    | r => r
    end
  end.

End manager_runs.

(** Six octets. *)
Definition is_address (a : Address) : Prop :=
  length a = 6%nat /\ Forall (fun x => 0 <= x < 256) a.

(** What is fixed once the policy is set: the policy, the public address,
    the rotation key and times, and whether the alarm exists. *)
Definition same_configuration (m m' : LeAddressManager) : Prop :=
  address_policy_ m' = address_policy_ m /\
  public_address_ m' = public_address_ m /\
  rotation_irk_ m' = rotation_irk_ m /\
  minimum_rotation_time_ m' = minimum_rotation_time_ m /\
  maximum_rotation_time_ m' = maximum_rotation_time_ m /\
  address_rotation_alarm_ m' = address_rotation_alarm_ m.

(** The six list mutators with their arguments. *)
Definition list_mutators (address_type : Z) (address : Address)
    (peer_irk local_irk : Octet16)
    : list (LeAddressManager -> LeAddressManager) :=
  [AddDeviceToConnectList address_type address;
   AddDeviceToResolvingList address_type address peer_irk local_irk;
   RemoveDeviceFromConnectList address_type address;
   RemoveDeviceFromResolvingList address_type address;
   ClearConnectList;
   ClearResolvingList].

(** A completion that [OnCommandComplete] acts on under policy [p]. *)
Definition acted_on (p : AddressPolicy) (view : CommandCompleteView) : Prop :=
  IsValid view = true /\
  ~ (GetCommandOpCode view = LE_SET_RANDOM_ADDRESS /\ p = USE_STATIC_ADDRESS).

(** Sample states for the further runs. *)
Definition static_address : AddressWithType :=
  {| GetAddress := [0x01; 0x02; 0x03; 0x04; 0x05; 0xC6];
     GetAddressType := RANDOM_DEVICE_ADDRESS |}.

Definition public_policy_manager : LeAddressManager :=
  set_address_policy USE_PUBLIC_ADDRESS (new_LeAddressManager sample_public_address).

Definition two_clients (first second : ClientState) (commands : list Command)
    (m : LeAddressManager) : LeAddressManager :=
  set_cached_commands commands
    (set_registered_clients {[ 7%nat := first; 8%nat := second ]} m).

Definition add_to_connect_list_command : Command :=
  {| command_type := ADD_DEVICE_TO_CONNECT_LIST;
     command_packet :=
       Some (LeAddDeviceToConnectListBuilder 0 [0xAA; 0xBB; 0xCC; 0xDD; 0xEE; 0x0F]) |}.

End Hci.

(** * Properties of the read path *)

Lemma u8_range (b : byte) : 0 <= u8 b < 256.
Proof.
  unfold u8. pose proof (Byte.to_N_bounded b). lia.
Qed.

Lemma u8_inj (a b : byte) : u8 a = u8 b -> a = b.
Proof.
  unfold u8. intros H. apply N2Z.inj in H.
  assert (Some a = Some b) as E
    by (rewrite <- (Byte.of_to_N a), <- (Byte.of_to_N b); congruence).
  congruence.
Qed.

Section hal_read_path.
Import Hal.

(** A [recv] for exactly the bytes at the front of what has arrived.  With
    nothing arrived this is the request for zero bytes, which returns 0 only
    once the peer has closed. *)
Lemma recv_prefix (s : Socket) (data rest : list byte) :
  arrived s = data ++ rest ->
  data ++ rest <> [] \/ peer_closed s = true ->
  recv s (length data)
  = (Z.of_nat (length data), data,
     {| arrived := rest; peer_closed := peer_closed s |}).
Proof.
  destruct s as [arr closed]; simpl; intros -> Hready.
  unfold recv; simpl.
  destruct (data ++ rest) as [|b l] eqn:E.
  - apply app_eq_nil in E as [-> ->].
    destruct Hready as [Hne | ->]; [contradiction | reflexivity].
  - rewrite <- E, take_app_length, drop_app_length. reflexivity.
Qed.

(** A [recv] with nothing arrived on an open connection, the request for
    zero bytes included: it would block. *)
Lemma recv_would_block (s : Socket) (len : nat) :
  arrived s = [] -> peer_closed s = false -> recv s len = (-1, [], s).
Proof. intros Harr Hopen. unfold recv. rewrite Harr, Hopen. reflexivity. Qed.

Lemma store_at_fresh (pre data : list byte) (n : nat) :
  (length data <= n)%nat ->
  store_at (pre ++ replicate n x00) (length pre) data
  = (pre ++ data) ++ replicate (n - length data) x00.
Proof.
  intros Hn. unfold store_at.
  rewrite take_app_length, drop_app_add, drop_replicate.
  rewrite <- app_assoc. reflexivity.
Qed.

Lemma recv_into_prefix (d : Driver) (pre data rest : list byte) (n : nat) :
  arrived (sock_fd_ d) = data ++ rest ->
  (length pre + length data <= kBufSize)%nat ->
  (length data <= n)%nat ->
  data ++ rest <> [] \/ peer_closed (sock_fd_ d) = true ->
  recv_into d (pre ++ replicate n x00) (length pre) (length data)
  = Stored (Z.of_nat (length data))
           ((pre ++ data) ++ replicate (n - length data) x00)
           (on_socket d rest).
Proof.
  intros Harr Hfit Hn Hready. unfold recv_into.
  rewrite (recv_prefix _ _ _ Harr Hready).
  apply Nat.leb_le in Hfit. rewrite Hfit.
  rewrite store_at_fresh by exact Hn. reflexivity.
Qed.

Lemma range_frame (tag : byte) (body zeros : list byte) (n : nat) :
  n = length body ->
  range ((tag :: body) ++ zeros) kH4HeaderSize (kH4HeaderSize + n) = body.
Proof.
  intros ->. unfold range, kH4HeaderSize.
  replace (1 + length body - 1)%nat with (length body) by lia.
  simpl. rewrite drop_0. apply take_app_length.
Qed.

Lemma recv_into_frame (d : Driver) (buf : list byte) (off len : nat)
    (pre data rest : list byte) (n : nat) :
  buf = pre ++ replicate n x00 ->
  off = length pre ->
  len = length data ->
  arrived (sock_fd_ d) = data ++ rest ->
  data ++ rest <> [] \/ peer_closed (sock_fd_ d) = true ->
  (length pre + length data <= kBufSize)%nat ->
  (length data <= n)%nat ->
  recv_into d buf off len
  = Stored (Z.of_nat (length data))
           ((pre ++ data) ++ replicate (n - length data) x00)
           (on_socket d rest).
Proof. intros -> -> -> Harr Hready Hfit Hn. apply recv_into_prefix; assumption. Qed.

Lemma recv_into_would_block (d : Driver) (buf : list byte) (off len : nat) :
  arrived (sock_fd_ d) = [] ->
  peer_closed (sock_fd_ d) = false ->
  (off <= kBufSize)%nat ->
  recv_into d buf off len
  = Stored (-1) (store_at buf off [])
           {| incoming_packet_callback_ := incoming_packet_callback_ d;
              sock_fd_ := sock_fd_ d; trace := trace d |}.
Proof.
  intros Harr Hopen Hoff. unfold recv_into.
  rewrite (recv_would_block _ _ Harr Hopen). cbn [length].
  rewrite Nat.add_0_r. apply Nat.leb_le in Hoff. rewrite Hoff. reflexivity.
Qed.

Lemma range_of_frame (buf : list byte) (from to : nat)
    (tag : byte) (body zeros : list byte) :
  buf = (tag :: body) ++ zeros ->
  from = kH4HeaderSize ->
  to = (kH4HeaderSize + length body)%nat ->
  range buf from to = body.
Proof. intros -> -> ->. apply range_frame. reflexivity. Qed.

Ltac recv_step pre data rest n :=
  rewrite (recv_into_frame _ _ _ _ pre data rest n);
  [ cbn [app length]
  | reflexivity | reflexivity | reflexivity | first [eassumption | reflexivity]
  | first [left; discriminate | eassumption]
  | unfold kBufSize, kH4HeaderSize in *; cbn [length] in *; lia .. ].

(** The run on a well-formed frame whose payload [recv] does not block:
    there is a payload byte, or another byte behind the frame, or the peer
    has closed. *)
Lemma frame_delivered_when_readable
    (k : FrameKind) (hdr payload rest : list byte) (d : Driver) :
  incoming_packet_callback_ d = true ->
  well_formed_frame k hdr payload ->
  arrived (sock_fd_ d) = frame_tag k :: hdr ++ payload ++ rest ->
  payload ++ rest <> [] \/ peer_closed (sock_fd_ d) = true ->
  incoming_packet_received d
  = Returned (emit [capture (hdr ++ payload) INCOMING (frame_type k);
                    delivered k (hdr ++ payload)]
                   (on_socket d rest)).
Proof.
  intros Hcb (Hh & Hlen & Hfit) Harr Hready.
  unfold incoming_packet_received. rewrite Hcb. cbn [negb].
  recv_step (@nil byte) [frame_tag k] (hdr ++ payload ++ rest) kBufSize.
  change (Z.of_nat 1 =? -1) with false. change (Z.of_nat 1 =? 0) with false.
  cbv iota. unfold byte_at at 1. cbn [nth].
  destruct k; cbn [frame_tag frame_header_size declared_length frame_type delivered] in *.
  - change (Byte.eqb x04 kH4Event) with true. cbv iota.
    destruct hdr as [|h0 [|h1 [|? ?]]]; try discriminate Hh. clear Hh.
    cbn [nth] in Hlen.
    unfold event_block.
    recv_step [x04] [h0; h1] (payload ++ rest) (kBufSize - 1)%nat.
    change (Z.of_nat 2 =? Z.of_nat kHciEvtHeaderSize) with true. cbn [negb]. cbv iota.
    unfold byte_at. cbn [nth]. cbv zeta. rewrite Hlen, Nat2Z.id.
    recv_step [x04; h0; h1] payload rest (kBufSize - 1 - 2)%nat.
    rewrite Z.eqb_refl, Nat2Z.id. cbn [negb]. 
    change (Byte.eqb x04 kH4Acl) with false.
    change (Byte.eqb x04 kH4Sco) with false.
    cbv iota.
    erewrite (range_of_frame _ _ _ x04 ([h0; h1] ++ payload)) by reflexivity.
    reflexivity.
  - change (Byte.eqb x02 kH4Event) with false.
    change (Byte.eqb x02 kH4Acl) with true. cbv iota.
    destruct hdr as [|h0 [|h1 [|h2 [|h3 [|? ?]]]]]; try discriminate Hh. clear Hh.
    cbn [nth] in Hlen.
    unfold acl_block.
    recv_step [x02] [h0; h1; h2; h3] (payload ++ rest) (kBufSize - 1)%nat.
    change (Z.of_nat 4 =? Z.of_nat kHciAclHeaderSize) with true. cbn [negb]. cbv iota.
    unfold byte_at. cbn [nth]. cbv zeta.
    assert ((u8 h3 * 256 + u8 h2) mod 2 ^ 16 = Z.of_nat (length payload)) as ->.
    { pose proof (u8_range h2). pose proof (u8_range h3).
      rewrite Z.mod_small; lia. }
    rewrite Nat2Z.id.
    recv_step [x02; h0; h1; h2; h3] payload rest (kBufSize - 1 - 4)%nat.
    rewrite Z.eqb_refl, Nat2Z.id. cbn [negb].
    assert ((Z.of_nat (length payload) <=? Z.of_nat kBufSize - Z.of_nat kH4HeaderSize
              - Z.of_nat kHciAclHeaderSize) = true) as ->.
    { apply Z.leb_le. unfold kBufSize, kH4HeaderSize, kHciAclHeaderSize in *. cbn [length] in Hfit. lia. }
    cbn [negb].
    change (Byte.eqb x02 kH4Sco) with false.
    cbv iota.
    erewrite (range_of_frame _ _ _ x02 ([h0; h1; h2; h3] ++ payload)) by reflexivity.
    reflexivity.
  - change (Byte.eqb x03 kH4Event) with false. change (Byte.eqb x03 kH4Acl) with false.
    change (Byte.eqb x03 kH4Sco) with true. cbv iota.
    destruct hdr as [|h0 [|h1 [|h2 [|? ?]]]]; try discriminate Hh. clear Hh.
    cbn [nth] in Hlen.
    unfold sco_block.
    recv_step [x03] [h0; h1; h2] (payload ++ rest) (kBufSize - 1)%nat.
    change (Z.of_nat 3 =? Z.of_nat kHciScoHeaderSize) with true. cbn [negb]. cbv iota.
    unfold byte_at. cbn [nth]. cbv zeta. rewrite Hlen, Nat2Z.id.
    recv_step [x03; h0; h1; h2] payload rest (kBufSize - 1 - 3)%nat.
    rewrite Z.eqb_refl, Nat2Z.id. cbn [negb]. cbv iota.
    erewrite (range_of_frame _ _ _ x03 ([h0; h1; h2] ++ payload)) by reflexivity.
    reflexivity.
Qed.


(** What a [recv] that would block returns is no length. *)
Lemma would_block_is_not_the_length (n : nat) : (-1 =? Z.of_nat n) = false.
Proof. apply Z.eqb_neq. lia. Qed.

(** The run on a well-formed frame without payload when nothing has arrived
    behind it and the connection is open: the [recv] for zero bytes returns
    -1, which is not the declared length. *)
Lemma empty_payload_frame_would_block
    (k : FrameKind) (hdr : list byte) (d : Driver) :
  incoming_packet_callback_ d = true ->
  well_formed_frame k hdr [] ->
  arrived (sock_fd_ d) = frame_tag k :: hdr ->
  peer_closed (sock_fd_ d) = false ->
  incoming_packet_received d
  = Aborted match k with
            | EventFrame => "malformed HCI event total parameter size received"
            | AclFrame => "malformed ACL length received"
            | ScoFrame => "malformed SCO packet received: size mismatch"
            end
            (on_socket d []).
Proof.
  intros Hcb (Hh & Hlen & _) Harr Hopen.
  assert (arrived (sock_fd_ d) = [frame_tag k] ++ hdr ++ []) as Harr'
    by (rewrite app_nil_r; exact Harr).
  unfold incoming_packet_received. rewrite Hcb. cbn [negb].
  recv_step (@nil byte) [frame_tag k] (hdr ++ []) kBufSize.
  change (Z.of_nat 1 =? -1) with false. change (Z.of_nat 1 =? 0) with false.
  cbv iota. unfold byte_at at 1. cbn [nth].
  destruct k; cbn [frame_tag frame_header_size declared_length] in *.
  - change (Byte.eqb x04 kH4Event) with true. cbv iota.
    destruct hdr as [|h0 [|h1 [|? ?]]]; try discriminate Hh. clear Hh.
    cbn [nth length] in Hlen.
    unfold event_block.
    recv_step [x04] [h0; h1] (@nil byte) (kBufSize - 1)%nat.
    change (Z.of_nat 2 =? Z.of_nat kHciEvtHeaderSize) with true. cbn [negb]. cbv iota.
    unfold byte_at. cbn [nth]. cbv zeta. rewrite Hlen.
    rewrite recv_into_would_block;
      [ | reflexivity | exact Hopen
      | unfold kBufSize, kH4HeaderSize, kHciEvtHeaderSize, kHciAclHeaderSize,
          kHciScoHeaderSize; lia ].
    rewrite (would_block_is_not_the_length 0). reflexivity.
  - change (Byte.eqb x02 kH4Event) with false.
    change (Byte.eqb x02 kH4Acl) with true. cbv iota.
    destruct hdr as [|h0 [|h1 [|h2 [|h3 [|? ?]]]]]; try discriminate Hh. clear Hh.
    cbn [nth length] in Hlen.
    unfold acl_block.
    recv_step [x02] [h0; h1; h2; h3] (@nil byte) (kBufSize - 1)%nat.
    change (Z.of_nat 4 =? Z.of_nat kHciAclHeaderSize) with true. cbn [negb]. cbv iota.
    unfold byte_at. cbn [nth]. cbv zeta.
    assert ((u8 h3 * 256 + u8 h2) mod 2 ^ 16 = Z.of_nat 0) as ->.
    { pose proof (u8_range h2). pose proof (u8_range h3).
      rewrite Z.mod_small; lia. }
    rewrite recv_into_would_block;
      [ | reflexivity | exact Hopen
      | unfold kBufSize, kH4HeaderSize, kHciEvtHeaderSize, kHciAclHeaderSize,
          kHciScoHeaderSize; lia ].
    rewrite (would_block_is_not_the_length 0). reflexivity.
  - change (Byte.eqb x03 kH4Event) with false. change (Byte.eqb x03 kH4Acl) with false.
    change (Byte.eqb x03 kH4Sco) with true. cbv iota.
    destruct hdr as [|h0 [|h1 [|h2 [|? ?]]]]; try discriminate Hh. clear Hh.
    cbn [nth length] in Hlen.
    unfold sco_block.
    recv_step [x03] [h0; h1; h2] (@nil byte) (kBufSize - 1)%nat.
    change (Z.of_nat 3 =? Z.of_nat kHciScoHeaderSize) with true. cbn [negb]. cbv iota.
    unfold byte_at. cbn [nth]. cbv zeta. rewrite Hlen.
    rewrite recv_into_would_block;
      [ | reflexivity | exact Hopen
      | unfold kBufSize, kH4HeaderSize, kHciEvtHeaderSize, kHciAclHeaderSize,
          kHciScoHeaderSize; lia ].
    rewrite (would_block_is_not_the_length 0). reflexivity.
Qed.

(** C2, amended -- a well-formed Event, ACL or SCO frame that has arrived
    whole, with at least one payload byte, or with another byte arrived
    behind it, or with the connection closed by the peer, is delivered as
    exactly header plus payload, byte for byte: the packet is captured as
    incoming with its type and handed to the receiver callback of its kind,
    the frame and nothing else is taken off the socket, and the handler
    returns.  The payload length is read from header byte 2 (Event), from
    header bytes 3 and 4, low byte first (ACL), or from header byte 3 (SCO).
    A well-formed frame without payload, with nothing arrived behind it on an
    open connection, is not delivered: the handler stops on the assertion on
    the payload size with the frame taken off the socket. *)
Theorem well_formed_frame_delivered
    (k : FrameKind) (hdr payload rest : list byte) (d : Driver) :
  incoming_packet_callback_ d = true ->
  well_formed_frame k hdr payload ->
  arrived (sock_fd_ d) = frame_tag k :: hdr ++ payload ++ rest ->
  (payload ++ rest <> [] \/ peer_closed (sock_fd_ d) = true ->
   incoming_packet_received d
   = Returned (emit [capture (hdr ++ payload) INCOMING (frame_type k);
                     delivered k (hdr ++ payload)]
                    (on_socket d rest))) /\
  (payload ++ rest = [] -> peer_closed (sock_fd_ d) = false ->
   incoming_packet_received d
   = Aborted match k with
             | EventFrame => "malformed HCI event total parameter size received"
             | AclFrame => "malformed ACL length received"
             | ScoFrame => "malformed SCO packet received: size mismatch"
             end
             (on_socket d [])).
Proof.
  intros Hcb Hwf Harr. split.
  - apply frame_delivered_when_readable; assumption.
  - intros Hnil Hopen. apply app_eq_nil in Hnil as [-> ->].
    rewrite !app_nil_r in Harr.
    apply (empty_payload_frame_would_block k hdr d); assumption.
Qed.

Lemma recv_into_past_end (d : Driver) (buf : list byte) (off : nat)
    (data rest : list byte) :
  arrived (sock_fd_ d) = data ++ rest ->
  (kBufSize < off + length data)%nat ->
  (off <= kBufSize)%nat ->
  recv_into d buf off (length data) = PastEnd (on_socket d rest).
Proof.
  intros Harr Hbig Hoff. unfold recv_into.
  rewrite (recv_prefix _ _ _ Harr)
    by (left; destruct data; [cbn in Hbig; lia | discriminate]).
  apply Nat.leb_gt in Hbig. rewrite Hbig. reflexivity.
Qed.

Lemma eqb_other_tag (a b : byte) : a <> b -> Byte.eqb a b = false.
Proof.
  intros Hne. destruct (Byte.eqb a b) eqn:E; [|reflexivity].
  apply Byte.byte_dec_bl in E. contradiction.
Qed.

(** C10 -- a first byte that is none of the Event, ACL and SCO tags is taken
    off the socket and the handler returns: nothing else is read, nothing is
    captured or delivered, no assertion fails. *)
Theorem unknown_tag_consumed (tag : byte) (rest : list byte) (d : Driver) :
  incoming_packet_callback_ d = true ->
  arrived (sock_fd_ d) = tag :: rest ->
  tag <> kH4Event -> tag <> kH4Acl -> tag <> kH4Sco ->
  incoming_packet_received d = Returned (on_socket d rest).
Proof.
  intros Hcb Harr He Ha Hs.
  unfold incoming_packet_received. rewrite Hcb. cbn [negb].
  recv_step (@nil byte) [tag] rest kBufSize.
  change (Z.of_nat 1 =? -1) with false. change (Z.of_nat 1 =? 0) with false.
  cbv iota. unfold byte_at. cbn [nth].
  rewrite !eqb_other_tag by assumption. reflexivity.
Qed.

Lemma unknown_tag_consumed_witness :
  incoming_packet_received
    {| incoming_packet_callback_ := true;
       sock_fd_ := {| arrived := [kH4Command; x03; x0c; x00];
                      peer_closed := false |};
       trace := [] |}
  = Returned
      {| incoming_packet_callback_ := true;
         sock_fd_ := {| arrived := [x03; x0c; x00]; peer_closed := false |};
         trace := [] |}.
Proof.
  apply (unknown_tag_consumed kH4Command [x03; x0c; x00]
           {| incoming_packet_callback_ := true;
              sock_fd_ := {| arrived := [kH4Command; x03; x0c; x00];
                             peer_closed := false |};
              trace := [] |});
    [reflexivity | reflexivity | discriminate ..].
Defined.

(** An ACL frame whose declared length does not fit the buffer: the whole
    payload is received into [buf + 5] before either assertion on the length
    is evaluated, so the bytes are taken off the socket and stored past the
    end of the array; the abort for a packet that is too long is not reached
    and nothing is delivered. *)
Lemma oversized_acl_payload_received_first
    (hdr payload rest : list byte) (d : Driver) :
  incoming_packet_callback_ d = true ->
  length hdr = frame_header_size AclFrame ->
  declared_length AclFrame hdr = Z.of_nat (length payload) ->
  (kBufSize < kH4HeaderSize + length hdr + length payload)%nat ->
  arrived (sock_fd_ d) = kH4Acl :: hdr ++ payload ++ rest ->
  incoming_packet_received d = Overrun (on_socket d rest).
Proof.
  intros Hcb Hh Hlen Hbig Harr.
  unfold incoming_packet_received. rewrite Hcb. cbn [negb].
  recv_step (@nil byte) [kH4Acl] (hdr ++ payload ++ rest) kBufSize.
  change (Z.of_nat 1 =? -1) with false. change (Z.of_nat 1 =? 0) with false.
  cbv iota. unfold byte_at at 1. cbn [nth].
  change (Byte.eqb kH4Acl kH4Event) with false.
  change (Byte.eqb kH4Acl kH4Acl) with true. cbv iota.
  cbn [frame_header_size declared_length] in *.
  destruct hdr as [|h0 [|h1 [|h2 [|h3 [|? ?]]]]]; try discriminate Hh. clear Hh.
  cbn [nth] in Hlen.
  unfold acl_block.
  recv_step [kH4Acl] [h0; h1; h2; h3] (payload ++ rest) (kBufSize - 1)%nat.
  change (Z.of_nat 4 =? Z.of_nat kHciAclHeaderSize) with true. cbn [negb]. cbv iota.
  unfold byte_at. cbn [nth]. cbv zeta.
  assert ((u8 h3 * 256 + u8 h2) mod 2 ^ 16 = Z.of_nat (length payload)) as ->.
  { pose proof (u8_range h2). pose proof (u8_range h3).
    rewrite Z.mod_small; lia. }
  rewrite Nat2Z.id.
  rewrite (recv_into_past_end _ _ _ payload rest);
    [ reflexivity | reflexivity
    | unfold kH4HeaderSize, kHciAclHeaderSize in *; cbn [length] in *; lia
    | unfold kBufSize, kH4HeaderSize, kHciAclHeaderSize; lia ].
Qed.

(** A Command Complete event with four parameter bytes. *)
Lemma well_formed_frame_delivered_witness :
  well_formed_frame EventFrame [x0e; x04] [x01; x03; x0c; x00] /\
  incoming_packet_received
    (driver_with (x04 :: [x0e; x04] ++ [x01; x03; x0c; x00] ++ [x02]))
  = Returned
      (emit [capture ([x0e; x04] ++ [x01; x03; x0c; x00]) INCOMING EVT;
                 hciEventReceived ([x0e; x04] ++ [x01; x03; x0c; x00])]
                (driver_with [x02])).
Proof.
  assert (well_formed_frame EventFrame [x0e; x04] [x01; x03; x0c; x00]) as Hwf.
  { split; [reflexivity|]. split; [reflexivity|]. vm_compute. lia. }
  split; [exact Hwf|].
  apply (well_formed_frame_delivered EventFrame [x0e; x04] [x01; x03; x0c; x00]
           [x02] (driver_with (x04 :: [x0e; x04] ++ [x01; x03; x0c; x00] ++ [x02]))
           eq_refl Hwf eq_refl).
  left. discriminate.
Defined.

(** C2, counterexample -- an event, an ACL packet and a SCO packet without
    payload, each well formed and arrived whole with nothing behind it on an
    open connection: the handler stops on the assertion on the payload size
    and nothing is captured or delivered. *)
Lemma empty_payload_at_end_of_stream_aborts :
  well_formed_frame EventFrame [x0e; x00] [] /\
  incoming_packet_received (driver_with [x04; x0e; x00])
  = Aborted "malformed HCI event total parameter size received" (driver_with []) /\
  well_formed_frame AclFrame [x01; x00; x00; x00] [] /\
  incoming_packet_received (driver_with [x02; x01; x00; x00; x00])
  = Aborted "malformed ACL length received" (driver_with []) /\
  well_formed_frame ScoFrame [x01; x00; x00] [] /\
  incoming_packet_received (driver_with [x03; x01; x00; x00])
  = Aborted "malformed SCO packet received: size mismatch" (driver_with []) /\
  trace (driver_with []) = [].
Proof.
  repeat split; try reflexivity; vm_compute; lia.
Qed.

(** C4 -- an ACL frame declaring 1020 payload bytes (header bytes 3 and 4 are
    0xFC 0x03), followed by the tag of the next frame: the 1020 bytes are
    received at [buf + 5], one byte past the end of [buf], before any
    assertion on the length; only the next tag is left on the socket and
    nothing has been captured or delivered. *)
Lemma oversized_acl_frame_overruns_buffer :
  incoming_packet_received
    (driver_with (kH4Acl :: [x00; x00; xfc; x03] ++ replicate 1020 xaa ++ [kH4Event]))
  = Overrun (driver_with [kH4Event]).
Proof.
  apply (oversized_acl_payload_received_first
           [x00; x00; xfc; x03] (replicate 1020 xaa) [kH4Event]
           (driver_with (kH4Acl :: [x00; x00; xfc; x03]
                           ++ replicate 1020 xaa ++ [kH4Event])));
    vm_compute; (reflexivity || lia).
Qed.

End hal_read_path.

(** * Properties of the address manager *)

Import Hci.

Lemma octet_cases (P : Z -> bool) :
  forallb P (map Z.of_nat (seq 0 256)) = true ->
  forall x, 0 <= x < 256 -> P x = true.
Proof.
  intros H x Hx. rewrite forallb_forall in H. apply H.
  apply in_map_iff. exists (Z.to_nat x). split; [lia|].
  apply in_seq. lia.
Qed.

Lemma clear_addr_mask_bits (x : Z) :
  0 <= x < 256 ->
  0 <= clear_addr_mask x < 64 /\
  Z.land (Z.lor (clear_addr_mask x) 0x40) 0x3F = clear_addr_mask x /\
  Z.land (clear_addr_mask x) 0x3F = clear_addr_mask x.
Proof.
  intros Hx.
  pose proof (octet_cases
    (fun x => (0 <=? clear_addr_mask x) && (clear_addr_mask x <? 64)
              && (Z.land (Z.lor (clear_addr_mask x) 0x40) 0x3F =? clear_addr_mask x)
              && (Z.land (clear_addr_mask x) 0x3F =? clear_addr_mask x))
    ltac:(vm_compute; reflexivity) x Hx) as H.
  cbv beta in H. rewrite !andb_true_iff in H.
  destruct H as [[[H1 H2] H3] H4].
  apply Z.leb_le in H1. apply Z.ltb_lt in H2.
  apply Z.eqb_eq in H3. apply Z.eqb_eq in H4. auto.
Qed.

Ltac same_state :=
  unfold set_le_address, set_random_drawn, set_cached_commands,
    set_registered_clients, set_handler, emit, emit_all;
  cbn [public_address_ address_policy_ le_address_ registered_clients_
       cached_commands_ rotation_irk_ minimum_rotation_time_
       maximum_rotation_time_ address_rotation_alarm_ handler_ random_drawn
       trace];
  rewrite <- ?app_assoc; reflexivity.

Section address_manager.

Variable random : nat -> Z.
Variable aes_128 : list Z -> list Z -> list Z.

(** ** Address generation *)

Lemma redrawn_octet_range (n : nat) : 1 <= redrawn_octet random n <= 254.
Proof.
  unfold redrawn_octet.
  pose proof (Z.mod_pos_bound (random n mod 2 ^ 32) 254 ltac:(lia)).
  rewrite Z.mod_small; lia.
Qed.

Lemma random_octet_eq (m : LeAddressManager) :
  random_octet random m
  = (redrawn_octet random (random_drawn m),
     set_random_drawn (S (random_drawn m)) m).
Proof. reflexivity. Qed.

Lemma rpa_non_degenerate (m : LeAddressManager) :
  all_zero (rpa_random_bits (generate_rpa random aes_128 m).1) = false /\
  all_one (rpa_random_bits (generate_rpa random aes_128 m).1) = false.
Proof.
  unfold generate_rpa, GenerateRandomBytes. cbn [map seq nth].
  set (p0 := random (random_drawn m + 0)%nat mod 256).
  set (p1 := random (random_drawn m + 1)%nat mod 256).
  set (p2 := random (random_drawn m + 2)%nat mod 256).
  assert (0 <= p2 < 256) as Hp2 by (apply Z.mod_pos_bound; lia).
  destruct (clear_addr_mask_bits p2 Hp2) as (Hc & Hlor & _).
  cbn [list_insert insert nth].
  rewrite random_octet_eq. cbn [random_drawn set_random_drawn].
  pose proof (redrawn_octet_range (random_drawn m + 3)) as Hv.
  set (v := redrawn_octet random (random_drawn m + 3)%nat) in *.
  set (c := clear_addr_mask p2) in *.
  destruct ((p0 =? 0) && (p1 =? 0) && (c =? 0)
            || (p0 =? 255) && (p1 =? 255) && (c =? 63)) eqn:Hdeg;
    cbn [fst snd list_insert insert nth replicate];
    unfold all_zero, all_one, rpa_random_bits;
    cbn [forallb length Nat.sub replicate app nth];
    rewrite Hlor.
  - split.
    + destruct (Z.eqb_spec v 0); [lia | reflexivity].
    + apply bool_decide_eq_false. intros [=]. lia.
  - apply orb_false_iff in Hdeg. destruct Hdeg as [Hz Ho].
    split.
    + rewrite andb_true_r, andb_assoc. exact Hz.
    + apply bool_decide_eq_false. intros [= E0 E1 E2].
      rewrite E0, E1, E2 in Ho. discriminate Ho.
Qed.

Lemma public_address_random_octet (m : LeAddressManager) :
  public_address_ (random_octet random m).2 = public_address_ m.
Proof. reflexivity. Qed.

Lemma redraw_while_public_result (fuel : nat) :
  forall (address : list Z) (m : LeAddressManager) a m',
    redraw_while_public random fuel address m = Some (a, m') ->
    a <> public_address_ m /\
    (a = address \/ exists n, a = <[0%nat := redrawn_octet random n]> address).
Proof.
  induction fuel as [|fuel IH]; intros address m a m' H; cbn in H.
  - case_bool_decide; [discriminate|]. injection H as <- <-. auto.
  - case_bool_decide as Heq.
    + apply IH in H. destruct H as [Hne Hshape]. split; [exact Hne|].
      right. destruct Hshape as [-> | [n ->]].
      * eexists; reflexivity.
      * exists n. apply list_insert_insert_eq.
    + injection H as <- <-. auto.
Qed.

Lemma redraw_while_public_unfinished (fuel : nat) :
  forall (address : list Z) (m : LeAddressManager),
    (0 < length address)%nat ->
    redraw_while_public random fuel address m = None ->
    forall i, (i < fuel)%nat ->
      redrawn_octet random (random_drawn m + i) = nth 0 (public_address_ m) 0.
Proof.
  induction fuel as [|fuel IH]; intros address m Hlen H i Hi; [lia|].
  cbn in H. case_bool_decide as Heq; [|discriminate].
  assert (<[0%nat := redrawn_octet random (random_drawn m)]> address
          = public_address_ m) as Hnext.
  { destruct fuel; cbn in H; case_bool_decide; first [discriminate | assumption]. }
  destruct i as [|i].
  - rewrite Nat.add_0_r, <- Hnext. destruct address; [cbn in Hlen; lia | reflexivity].
  - specialize (IH _ _ ltac:(rewrite length_insert; exact Hlen) H i ltac:(lia)).
    cbn in IH. rewrite <- IH. f_equal. lia.
Qed.

Lemma generate_nrpa_candidate (m : LeAddressManager) :
  exists x0 x1 x2 x3 x4 x5 m1,
    (forall fuel, generate_nrpa random fuel m
                  = redraw_while_public random fuel [x0; x1; x2; x3; x4; x5] m1) /\
    public_address_ m1 = public_address_ m /\
    (random_drawn m + 6 <= random_drawn m1 <= random_drawn m + 7)%nat /\
    0 <= x5 < 64 /\
    ~ (x0 = 0 /\ x1 = 0 /\ x2 = 0 /\ x3 = 0 /\ x4 = 0 /\ x5 = 0) /\
    ~ (x0 = 255 /\ x1 = 255 /\ x2 = 255 /\ x3 = 255 /\ x4 = 255 /\ x5 = 63).
Proof.
  unfold generate_nrpa, GenerateRandomBytes. cbn [map seq nth].
  set (r0 := random (random_drawn m + 0)%nat mod 256).
  set (r1 := random (random_drawn m + 1)%nat mod 256).
  set (r2 := random (random_drawn m + 2)%nat mod 256).
  set (r3 := random (random_drawn m + 3)%nat mod 256).
  set (r4 := random (random_drawn m + 4)%nat mod 256).
  set (r5 := random (random_drawn m + 5)%nat mod 256).
  assert (0 <= r5 < 256) as Hr5 by (apply Z.mod_pos_bound; lia).
  destruct (clear_addr_mask_bits r5 Hr5) as (Hc & _ & _).
  cbn [list_insert insert nth].
  rewrite random_octet_eq. cbn [random_drawn set_random_drawn].
  pose proof (redrawn_octet_range (random_drawn m + 6)) as Hv.
  set (v := redrawn_octet random (random_drawn m + 6)%nat) in *.
  set (c := clear_addr_mask r5) in *.
  destruct ((r0 =? 0) && (r1 =? 0) && (r2 =? 0) && (r3 =? 0) && (r4 =? 0) && (c =? 0)
            || (r0 =? 255) && (r1 =? 255) && (r2 =? 255) && (r3 =? 255)
               && (r4 =? 255) && (c =? 63)) eqn:Hdeg;
    cbn [list_insert insert].
  - exists v, r1, r2, r3, r4, c, (set_random_drawn (S (random_drawn m + 6)) m).
    cbn [public_address_ random_drawn set_random_drawn].
    repeat split; try reflexivity; lia.
  - exists r0, r1, r2, r3, r4, c, (set_random_drawn (random_drawn m + 6) m).
    cbn [public_address_ random_drawn set_random_drawn].
    apply orb_false_iff in Hdeg. destruct Hdeg as [Hz Ho].
    repeat split; try reflexivity; lia.
Qed.

(** C8 -- whatever the random source yields: the random bits of the address
    [generate_rpa] returns are neither all 0 nor all 1 once the two type bits
    are masked; an address [generate_nrpa] returns has the same property and
    differs from the public address; and [generate_nrpa] is still looping
    after [fuel] redraws only if every one of them produced the first octet
    of the public address. *)
Theorem generated_addresses_non_degenerate (m : LeAddressManager) :
  (all_zero (rpa_random_bits (generate_rpa random aes_128 m).1) = false /\
   all_one (rpa_random_bits (generate_rpa random aes_128 m).1) = false) /\
  (forall fuel a m',
     generate_nrpa random fuel m = Some (a, m') ->
     all_zero (nrpa_random_bits a) = false /\
     all_one (nrpa_random_bits a) = false /\
     a <> public_address_ m) /\
  (forall fuel,
     generate_nrpa random fuel m = None ->
     exists start,
       (random_drawn m + 6 <= start <= random_drawn m + 7)%nat /\
       forall i, (i < fuel)%nat ->
         redrawn_octet random (start + i) = nth 0 (public_address_ m) 0).
Proof.
  split; [apply rpa_non_degenerate|].
  destruct (generate_nrpa_candidate m)
    as (x0 & x1 & x2 & x3 & x4 & x5 & m1 & Hgen & Hpub & Hpos & Hx5 & Hz & Ho).
  split.
  - intros fuel a m' H. rewrite Hgen in H.
    apply redraw_while_public_result in H. rewrite Hpub in H.
    destruct H as [Hne Hshape]. 
    assert (exists y0, a = [y0; x1; x2; x3; x4; x5] /\
                       (y0 = x0 \/ 1 <= y0 <= 254)) as (y0 & -> & Hy0).
    { destruct Hshape as [-> | [n ->]].
      - exists x0. auto.
      - exists (redrawn_octet random n). split; [reflexivity|].
        right. apply redrawn_octet_range. }
    assert (Z.land x5 63 = x5) as Hland.
    { change 63 with (Z.ones 6). rewrite Z.land_ones by lia.
      apply Z.mod_small. lia. }
    unfold all_zero, all_one, nrpa_random_bits.
    cbn [nth forallb length Nat.sub replicate app]. rewrite Hland.
    repeat split.
    + destruct (Z.eqb_spec y0 0), (Z.eqb_spec x1 0), (Z.eqb_spec x2 0),
               (Z.eqb_spec x3 0), (Z.eqb_spec x4 0), (Z.eqb_spec x5 0);
        try reflexivity. exfalso. lia.
    + apply bool_decide_eq_false. intros [=]. lia.
    + exact Hne.
  - intros fuel H. rewrite Hgen in H.
    exists (random_drawn m1). split; [exact Hpos|].
    intros i Hi. rewrite <- Hpub.
    apply (redraw_while_public_unfinished fuel [x0; x1; x2; x3; x4; x5] m1);
      [cbn; lia | exact H | exact Hi].
Qed.

(** ** The rotation interval *)


(** ** Clients, cached commands and completions *)

Lemma emit_all_nil (m : LeAddressManager) : emit_all [] m = m.
Proof. destruct m. unfold emit_all. cbn. rewrite app_nil_r. reflexivity. Qed.

Lemma emit_emit_all (e : Effect) (es : list Effect) (m : LeAddressManager) :
  emit e (emit_all es m) = emit_all (es ++ [e]) m.
Proof. unfold emit, emit_all. cbn. rewrite app_assoc. reflexivity. Qed.

Lemma set_handler_same (m : LeAddressManager) :
  handler_ m = [] -> set_handler [] m = m.
Proof. destruct m. cbn. intros ->. reflexivity. Qed.


Lemma run_posted_post (fuel : nat) (t : Task) (m : LeAddressManager) :
  handler_ m = [] ->
  run_posted random aes_128 fuel (post t m)
  = match run_task random aes_128 fuel t m with
    | Ok m' => Ok m'
    | r => r
    end.
Proof.
  intros H. unfold run_posted, post. cbn [handler_ set_handler]. rewrite H.
  cbn [app run_tasks].
  replace (set_handler [] (set_handler [t] m)) with m
    by (destruct m; cbn in *; subst; reflexivity).
  destruct (run_task random aes_128 fuel t m); reflexivity.
Qed.

Lemma run_posted_post' (fuel : nat) (t : Task) (m : LeAddressManager) :
  handler_ m = [] ->
  run_posted random aes_128 fuel (post t m) = run_task random aes_128 fuel t m.
Proof.
  intros H. rewrite run_posted_post by exact H.
  destruct (run_task random aes_128 fuel t m); reflexivity.
Qed.

(** The two loops over the registered clients only make calls. *)
Lemma resume_loop (l : list (nat * ClientState)) (m : LeAddressManager) :
  fold_left
    (fun m (client : nat * ClientState) =>
       let client := (client.1, WAITING_FOR_RESUME) in
       emit (OnResume client.1) m) l m
  = emit_all (OnResume <$> l.*1) m.
Proof.
  rewrite <- (emit_all_nil m) at 1.
  change (OnResume <$> l.*1) with ([] ++ (OnResume <$> l.*1)).
  generalize (@nil Effect) as es.
  induction l as [|[c st] l IH]; intros es; cbn [fold_left fmap list_fmap fst].
  - rewrite app_nil_r. reflexivity.
  - rewrite emit_emit_all, IH, <- app_assoc. reflexivity.
Qed.

Lemma pause_loop (l : list (nat * ClientState)) (m : LeAddressManager) :
  fold_left
    (fun m (client : nat * ClientState) =>
       if bool_decide (client.2 <> PAUSED)
          && bool_decide (client.2 <> WAITING_FOR_PAUSE)
       then
         let client := (client.1, WAITING_FOR_PAUSE) in
         emit (OnPause client.1) m
       else m) l m
  = emit_all (OnPause <$> (List.filter wants_pause l).*1) m.
Proof.
  rewrite <- (emit_all_nil m) at 1.
  change (OnPause <$> (List.filter wants_pause l).*1)
    with ([] ++ (OnPause <$> (List.filter wants_pause l).*1)).
  generalize (@nil Effect) as es.
  induction l as [|[c st] l IH]; intros es.
  - cbn. rewrite app_nil_r. reflexivity.
  - cbn [fold_left List.filter fst snd].
    change (bool_decide (st <> PAUSED) && bool_decide (st <> WAITING_FOR_PAUSE))
      with (wants_pause (c, st)).
    destruct (wants_pause (c, st)).
    + rewrite emit_emit_all, IH. cbn [fmap list_fmap fst].
      rewrite <- app_assoc. reflexivity.
    + apply IH.
Qed.

Lemma pause_registered_clients_calls (m : LeAddressManager) :
  pause_registered_clients m
  = emit_all (OnPause <$> (List.filter wants_pause
                             (map_to_list (registered_clients_ m))).*1) m.
Proof. apply pause_loop. Qed.


(** Neither loop writes to the client table. *)
Lemma pause_registered_clients_keeps_states (m : LeAddressManager) :
  registered_clients_ (pause_registered_clients m) = registered_clients_ m.
Proof. rewrite pause_registered_clients_calls. reflexivity. Qed.

Lemma resume_registered_clients_keeps_states (fuel : nat) (m m' : LeAddressManager) :
  cached_commands_ m = [] ->
  resume_registered_clients random aes_128 fuel m = Ok m' ->
  registered_clients_ m' = registered_clients_ m.
Proof.
  intros Hq. unfold resume_registered_clients. rewrite Hq.
  rewrite bool_decide_eq_true_2 by reflexivity. cbn [negb].
  rewrite resume_loop. intros [= <-]. reflexivity.
Qed.

Lemma set_random_drawn_same (m : LeAddressManager) :
  set_random_drawn (random_drawn m) m = m.
Proof. destruct m. reflexivity. Qed.

Lemma generate_rpa_frame (m : LeAddressManager) :
  exists n, (generate_rpa random aes_128 m).2 = set_random_drawn n m.
Proof.
  unfold generate_rpa, GenerateRandomBytes, random_octet, GenerateRandom.
  match goal with |- context [if ?c then _ else _] => destruct c end;
    eexists; reflexivity.
Qed.

Lemma redraw_while_public_frame (fuel : nat) :
  forall (address : list Z) (m : LeAddressManager) a m',
    redraw_while_public random fuel address m = Some (a, m') ->
    exists n, m' = set_random_drawn n m.
Proof.
  induction fuel as [|fuel IH]; intros address m a m' H; cbn in H.
  - case_bool_decide; [discriminate|]. injection H as <- <-.
    exists (random_drawn m). symmetry. apply set_random_drawn_same.
  - case_bool_decide.
    + apply IH in H. destruct H as [n ->]. exists n. reflexivity.
    + injection H as <- <-.
      exists (random_drawn m). symmetry. apply set_random_drawn_same.
Qed.

Lemma generate_nrpa_frame (fuel : nat) (m : LeAddressManager) a m' :
  generate_nrpa random fuel m = Some (a, m') ->
  exists n, m' = set_random_drawn n m.
Proof.
  unfold generate_nrpa, GenerateRandomBytes, random_octet, GenerateRandom.
  match goal with |- context [if ?c then _ else _] => destruct c end;
    intros H; apply redraw_while_public_frame in H; destruct H as [n ->];
    exists n; reflexivity.
Qed.

Lemma get_next_private_address_interval_ms_frame (m : LeAddressManager) d m' :
  get_next_private_address_interval_ms random m = Some (d, m') ->
  m' = set_random_drawn (S (random_drawn m)) m.
Proof.
  unfold get_next_private_address_interval_ms, GenerateRandom.
  repeat match goal with |- context [if ?c then _ else _] => destruct c end;
    intros [=]; congruence.
Qed.

Lemma not_rotating_test (p : AddressPolicy) :
  bool_decide (p <> USE_RESOLVABLE_ADDRESS)
  && bool_decide (p <> USE_NON_RESOLVABLE_ADDRESS)
  = negb (is_rotating p).
Proof. destruct p; reflexivity. Qed.

(** How [rotate_random_address] can end. *)
Lemma rotate_random_address_cases (fuel : nat) (m : LeAddressManager) :
  match rotate_random_address random aes_128 fuel m with
  | Ok m' =>
      if is_rotating (address_policy_ m)
      then exists n delay address,
          get_next_private_address_interval_ms random m
          = Some (delay, set_random_drawn (S (random_drawn m)) m) /\
          m' = set_le_address
                 {| GetAddress := address; GetAddressType := RANDOM_DEVICE_ADDRESS |}
                 (set_random_drawn n
                    (emit_all [alarm_Schedule delay;
                               enqueue_command
                                 (Some (LeSetRandomAddressBuilder address))] m))
      else m' = m
  | Fatal _ => False
  | Undefined _ =>
      is_rotating (address_policy_ m) = true /\
      (address_rotation_alarm_ m = false \/
       get_next_private_address_interval_ms random m = None)
  | Unfinished => address_policy_ m = USE_NON_RESOLVABLE_ADDRESS
  end.
Proof.
  unfold rotate_random_address. rewrite not_rotating_test.
  destruct (is_rotating (address_policy_ m)) eqn:Hrot; cbn [negb]; [|reflexivity].
  destruct (address_rotation_alarm_ m) eqn:Halarm; cbn [negb]; [|auto].
  destruct (get_next_private_address_interval_ms random m)
    as [[delay m1]|] eqn:Hnext; [|auto].
  pose proof (get_next_private_address_interval_ms_frame _ _ _ Hnext) as ->.
  cbv zeta. case_bool_decide as Hres.
  - match goal with |- context [generate_rpa random aes_128 ?x] =>
      destruct (generate_rpa_frame x) as [n Hn];
      destruct (generate_rpa random aes_128 x) as [address m2]
    end.
    cbn [snd] in Hn. subst m2.
    exists n, delay, address. split; [reflexivity | same_state].
  - match goal with |- context [generate_nrpa random fuel ?x] =>
      destruct (generate_nrpa random fuel x) as [[address m2]|] eqn:Hgen
    end.
    + apply generate_nrpa_frame in Hgen as [n ->].
      exists n, delay, address. split; [reflexivity | same_state].
    + change (address_policy_ m <> USE_RESOLVABLE_ADDRESS) in Hres.
      revert Hrot Hres.
      destruct (address_policy_ m); first [discriminate | congruence].
Qed.













Lemma filter_keys_NoDup (f : nat * ClientState -> bool) (l : list (nat * ClientState)) :
  NoDup l.*1 -> NoDup (List.filter f l).*1.
Proof.
  induction l as [|[c st] l IH]; intros Hnd; [exact Hnd|].
  cbn [fmap list_fmap fst] in Hnd. apply NoDup_cons in Hnd as [Hnotin Hnd].
  cbn [List.filter]. destruct (f (c, st)); [|auto].
  cbn [fmap list_fmap fst]. apply NoDup_cons. split; [|auto].
  intros Hin. apply Hnotin. apply list_elem_of_fmap in Hin as [[c' st'] [-> Hin]].
  apply list_elem_of_In, filter_In in Hin as [Hin _].
  apply list_elem_of_fmap. exists (c', st'). split; [reflexivity|].
  apply list_elem_of_In. exact Hin.
Qed.

Lemma asked_to_pause (clients : gmap nat ClientState) :
  NoDup (List.filter wants_pause (map_to_list clients)).*1 /\
  forall x, x ∈ (List.filter wants_pause (map_to_list clients)).*1 <->
            exists st, clients !! x = Some st /\ st <> PAUSED /\
                       st <> WAITING_FOR_PAUSE.
Proof.
  split; [apply filter_keys_NoDup, NoDup_fst_map_to_list|].
  intros x. rewrite list_elem_of_fmap. split.
  - intros [[c st] [-> Hin]]. apply list_elem_of_In, filter_In in Hin as [Hin Hw].
    apply list_elem_of_In, elem_of_map_to_list in Hin.
    exists st. split; [exact Hin|].
    unfold wants_pause in Hw. cbn [snd] in Hw.
    apply andb_true_iff in Hw as [H1 H2].
    apply bool_decide_eq_true in H1. apply bool_decide_eq_true in H2. auto.
  - intros (st & Hst & H1 & H2). exists (x, st). split; [reflexivity|].
    apply list_elem_of_In, filter_In. split.
    + apply list_elem_of_In, elem_of_map_to_list. exact Hst.
    + unfold wants_pause. cbn [snd].
      rewrite !bool_decide_eq_true_2 by assumption. reflexivity.
Qed.

(** C7, amended -- registering before any policy has been set is not fatal.
    [Register] returns [POLICY_NOT_SET]; the posted [register_client] admits
    the client (Resumed when it is new), caches a rotation and calls
    [OnPause] once on every client not recorded as Paused or
    WaitingForPause.  The missing policy is detected later: every
    [SetPrivacyPolicyForInitiatorAddress] on the resulting manager is
    fatal. *)
Theorem register_before_policy_is_admitted
    (fuel : nat) (c : nat) (m : LeAddressManager) :
  address_policy_ m = POLICY_NOT_SET ->
  handler_ m = [] ->
  (Register c m).1 = POLICY_NOT_SET /\
  exists m' asked,
    run_posted random aes_128 fuel (Register c m).2 = Ok m' /\
    address_policy_ m' = POLICY_NOT_SET /\
    registered_clients_ m'
    = match registered_clients_ m !! c with
      | Some _ => registered_clients_ m
      | None => <[c := RESUMED]> (registered_clients_ m)
      end /\
    is_Some (registered_clients_ m' !! c) /\
    cached_commands_ m'
    = cached_commands_ m
      ++ [{| command_type := ROTATE_RANDOM_ADDRESS; command_packet := None |}] /\
    trace m' = trace m ++ (OnPause <$> asked) /\
    NoDup asked /\
    (forall x, x ∈ asked <->
               exists st, registered_clients_ m' !! x = Some st /\
                          st <> PAUSED /\ st <> WAITING_FOR_PAUSE) /\
    (forall address_policy fixed_address rotation_irk minimum maximum,
       exists msg,
         SetPrivacyPolicyForInitiatorAddress address_policy fixed_address
           rotation_irk minimum maximum m' = Fatal msg).
Proof.
  intros Hpolicy Hidle. unfold Register. cbn [fst snd].
  split; [exact Hpolicy|].
  rewrite run_posted_post' by exact Hidle. cbn [run_task].
  unfold register_client. cbv zeta.
  cbn [address_policy_ set_registered_clients]. rewrite Hpolicy.
  rewrite bool_decide_eq_true_2 by reflexivity. cbn [orb].
  unfold prepare_to_rotate. cbv zeta.
  rewrite pause_registered_clients_calls.
  cbn [registered_clients_ set_cached_commands set_registered_clients].
  set (clients := match registered_clients_ m !! c with
                  | Some _ => registered_clients_ m
                  | None => <[c := RESUMED]> (registered_clients_ m)
                  end).
  assert (is_Some (clients !! c)) as Hc.
  { subst clients. destruct (registered_clients_ m !! c) eqn:E.
    - rewrite E. eauto.
    - rewrite lookup_insert_eq. eauto. }
  destruct (asked_to_pause clients) as [Hnd Hasked].
  eexists _, _. split; [reflexivity|].
  cbn [address_policy_ registered_clients_ cached_commands_ trace emit_all
       set_cached_commands set_registered_clients].
  repeat (split; [first [reflexivity | assumption]|]).
  intros address_policy fixed_address rotation_irk minimum maximum.
  unfold SetPrivacyPolicyForInitiatorAddress.
  cbn [address_policy_ registered_clients_ cached_commands_ trace emit_all
       set_cached_commands set_registered_clients].
  rewrite Hpolicy. rewrite bool_decide_eq_false_2 by (intros H; apply H; reflexivity).
  case_bool_decide; [eauto|].
  rewrite bool_decide_eq_false_2; [cbn [negb]; eauto|].
  intros Hempty. rewrite Hempty, lookup_empty in Hc. destruct Hc as [? [=]].
Qed.

(** C5, amended -- [on_le_set_random_address_complete] is fatal on a
    completion that does not decode or does not report success.
    [OnCommandComplete] is not: on a completion that is not valid it logs an
    error and returns, with no client resumed and no cached command issued;
    and it never reads the status, so a valid completion is handled the same
    whatever status it reports. *)
Theorem completion_validation
    (fuel : nat) (view : CommandCompleteView) (m : LeAddressManager) :
  (LeSetRandomAddressComplete view <> Some SUCCESS ->
   exists msg, on_le_set_random_address_complete view m = Fatal msg) /\
  (IsValid view = false -> handler_ m = [] ->
   run_posted random aes_128 fuel (OnCommandComplete view m)
   = Ok (emit (LOG_ERROR "Received command complete with invalid packet") m)) /\
  (forall status,
     OnCommandComplete
       {| IsValid := IsValid view; GetCommandOpCode := GetCommandOpCode view;
          LeSetRandomAddressComplete := status |} m
     = OnCommandComplete view m).
Proof.
  split; [|split].
  - intros Hbad. unfold on_le_set_random_address_complete.
    destruct (LeSetRandomAddressComplete view) as [status|]; [|eauto].
    case_bool_decide as Hst; [eauto|].
    exfalso. apply Hbad. f_equal.
    destruct (decide (status = SUCCESS)); [assumption | contradiction].
  - intros Hinvalid Hidle. unfold OnCommandComplete. rewrite Hinvalid.
    cbn [negb]. unfold run_posted. cbn [handler_ emit]. rewrite Hidle.
    cbn [run_tasks]. f_equal.
    destruct m; cbn in *; subst; reflexivity.
  - intros status. reflexivity.
Qed.

End address_manager.

(** ** Concrete runs *)



(** A non-resolvable address generated from the sample source. *)
Lemma generated_addresses_non_degenerate_witness :
  exists a m',
    generate_nrpa sample_random 1 resolvable_manager = Some (a, m') /\
    all_zero (nrpa_random_bits a) = false /\
    all_one (nrpa_random_bits a) = false /\
    a <> public_address_ resolvable_manager.
Proof.
  destruct (generated_addresses_non_degenerate sample_random sample_aes_128
              resolvable_manager) as (_ & Hnrpa & _).
  destruct (generate_nrpa sample_random 1 resolvable_manager)
    as [[a m']|] eqn:E.
  - exists a, m'. split; [reflexivity|]. apply (Hnrpa 1%nat a m' E).
  - vm_compute in E. discriminate E.
Defined.

(** C3 -- the pause requested on the first registration calls [OnPause] on
    client 7 and leaves its recorded state Resumed; its acknowledgment takes
    the recorded state from Resumed to Paused directly; and the resume on
    completion calls [OnResume] and leaves the recorded state Paused. *)
Lemma pause_request_leaves_recorded_state :
  match first_registration, first_pause_acknowledged, first_rotation_confirmed with
  | Ok m1, Ok m2, Ok m3 =>
      paused (trace m1) = [7%nat] /\
      registered_clients_ m1 !! 7%nat = Some RESUMED /\
      registered_clients_ m2 !! 7%nat = Some PAUSED /\
      resumed (trace m3) = [7%nat] /\
      registered_clients_ m3 !! 7%nat = Some PAUSED
  | _, _, _ => False
  end.
Proof. vm_compute. auto 6. Qed.


(** A rotation that is dequeued and not issued.  With no policy set, the
    registration of client 7 caches a rotation behind the clear; the
    confirmation of the clear dequeues it, and nothing is handed to the
    controller: every other field, the trace included, is as before. *)
Lemma confirmation_dequeues_rotation_without_issuing :
  match clear_issued_before_policy, clear_confirmed_before_policy with
  | Ok m, Ok m' =>
      submitted (trace m) = [Some LeClearConnectListBuilder] /\
      cached_commands_ m = [rotate_command] /\
      m' = set_cached_commands [] m
  | _, _ => False
  end.
Proof. vm_compute. auto. Qed.

(** A command cached between the completion and the run of the resume it
    posted: the resume is skipped and the command is issued instead. *)
Lemma command_cached_before_resume_is_issued :
  match first_pause_acknowledged, clear_requested_at_confirmation with
  | Ok m, Ok m' =>
      cached_commands_ m = [] /\
      m' = emit (enqueue_command (Some LeClearConnectListBuilder)) m
  | _, _ => False
  end.
Proof. vm_compute. auto. Qed.


(** C5, counterexample -- [OnCommandComplete] returns on a completion that is
    not valid, and resumes the clients on a set-random-address completion
    that reports an error. *)
Lemma invalid_or_failed_completion_is_not_fatal :
  run_posted sample_random sample_aes_128 0
    (OnCommandComplete invalid_view (with_paused_client [] resolvable_manager))
  = Ok (emit (LOG_ERROR "Received command complete with invalid packet")
          (with_paused_client [] resolvable_manager)) /\
  run_posted sample_random sample_aes_128 0
    (OnCommandComplete (complete_view LE_SET_RANDOM_ADDRESS (ERROR_CODE 0x0c))
       (with_paused_client [] resolvable_manager))
  = Ok (emit (OnResume 7) (with_paused_client [] resolvable_manager)).
Proof. vm_compute. auto. Qed.

(** Both validations at concrete completions. *)
Lemma completion_validation_witness :
  (exists msg,
     on_le_set_random_address_complete
       (complete_view LE_SET_RANDOM_ADDRESS (ERROR_CODE 0x0c)) resolvable_manager
     = Fatal msg) /\
  run_posted sample_random sample_aes_128 0
    (OnCommandComplete invalid_view resolvable_manager)
  = Ok (emit (LOG_ERROR "Received command complete with invalid packet")
          resolvable_manager).
Proof.
  destruct (completion_validation sample_random sample_aes_128 0
              (complete_view LE_SET_RANDOM_ADDRESS (ERROR_CODE 0x0c))
              resolvable_manager) as (H1 & _ & _).
  destruct (completion_validation sample_random sample_aes_128 0
              invalid_view resolvable_manager) as (_ & H2 & _).
  split; [apply H1; discriminate | apply H2; reflexivity].
Defined.



(** C7, counterexample -- on a freshly constructed manager, whose policy is
    not set, registering client 7 is not fatal: the client is admitted as
    Resumed and asked to pause. *)
Lemma register_before_policy_not_fatal :
  address_policy_ (new_LeAddressManager sample_public_address) = POLICY_NOT_SET /\
  match run_posted sample_random sample_aes_128 0
          (Register 7 (new_LeAddressManager sample_public_address)).2 with
  | Ok m' => registered_clients_ m' !! 7%nat = Some RESUMED /\
             trace m' = [OnPause 7%nat]
  | _ => False
  end.
Proof. vm_compute. auto. Qed.

(** Registration on a freshly constructed manager. *)
Lemma register_before_policy_is_admitted_witness :
  (Register 7 (new_LeAddressManager sample_public_address)).1 = POLICY_NOT_SET /\
  exists m',
    run_posted sample_random sample_aes_128 0
      (Register 7 (new_LeAddressManager sample_public_address)).2 = Ok m' /\
    is_Some (registered_clients_ m' !! 7%nat).
Proof.
  destruct (register_before_policy_is_admitted sample_random sample_aes_128 0 7
              (new_LeAddressManager sample_public_address) eq_refl eq_refl)
    as (H1 & m' & asked & Hrun & _ & _ & Hc & _).
  split; [exact H1|]. exists m'. split; [exact Hrun | exact Hc].
Defined.

(** * Further properties of the transport *)

Section hal_more.
Import Hal.

Lemma recv_inv (s s' : Socket) (len : nat) (ret : Z) (data : list byte) :
  recv s len = (ret, data, s') ->
  arrived s = data ++ arrived s' /\
  peer_closed s' = peer_closed s /\
  (length data <= len)%nat /\
  (ret = Z.of_nat len -> length data = len) /\
  (data = [] -> s' = s) /\
  ((0 < len)%nat -> ret = 0 -> arrived s = [] /\ peer_closed s = true) /\
  (ret <> 0 -> ret <> -1 -> data <> []).
Proof.
  unfold recv. destruct (arrived s) as [|b bs] eqn:Harr.
  - intros [= <- <- <-]. rewrite Harr.
    destruct (peer_closed s); repeat split; auto; try (cbn; lia).
  - intros [= <- <- <-]. cbn [arrived peer_closed].
    split; [symmetry; apply (take_drop len (b :: bs))|].
    split; [reflexivity|].
    pose proof (length_take (b :: bs) len) as Hlen.
    split; [lia|]. split; [cbn [length] in *; lia|].
    split; [|split].
    + intros E. destruct len; [|discriminate E].
      rewrite drop_0, <- Harr. destruct s; reflexivity.
    + intros Hpos Hret. destruct len; [lia | cbn in Hret; lia].
    + intros Hret _ E. rewrite E in Hret. apply Hret. reflexivity.
Qed.

Lemma recv_into_inv (d : Driver) (buf : list byte) (off len : nat) :
  match recv_into d buf off len with
  | Stored ret buf' d' =>
      exists data rest,
        arrived (sock_fd_ d) = data ++ rest /\
        d' = on_socket d rest /\
        buf' = store_at buf off data /\
        (length data <= len)%nat /\
        (off + length data <= kBufSize)%nat /\
        (ret = Z.of_nat len -> length data = len) /\
        (data = [] -> d' = d) /\
        ((0 < len)%nat -> ret = 0 ->
         arrived (sock_fd_ d) = [] /\ peer_closed (sock_fd_ d) = true) /\
        (ret <> 0 -> ret <> -1 -> data <> [])
  | PastEnd d' =>
      exists data rest,
        arrived (sock_fd_ d) = data ++ rest /\
        d' = on_socket d rest /\
        (length data <= len)%nat /\
        (kBufSize < off + length data)%nat
  end.
Proof.
  unfold recv_into.
  destruct (recv (sock_fd_ d) len) as [[ret data] s'] eqn:Hrecv.
  apply recv_inv in Hrecv as (Harr & Hclosed & Hle & Hfull & Hnil & Hzero & Hsome).
  assert ({| incoming_packet_callback_ := incoming_packet_callback_ d;
             sock_fd_ := s'; trace := trace d |} = on_socket d (arrived s')) as Hd'.
  { unfold on_socket. rewrite <- Hclosed. destruct s'; reflexivity. }
  destruct (Nat.leb_spec (off + length data) kBufSize) as [Hfit|Hfit].
  - exists data, (arrived s').
    split; [exact Harr|]. split; [exact Hd'|].
    split; [reflexivity|]. split; [exact Hle|]. split; [exact Hfit|].
    split; [exact Hfull|].
    split; [intros E; rewrite (Hnil E); destruct d; reflexivity|].
    split; [exact Hzero | exact Hsome].
  - exists data, (arrived s').
    split; [exact Harr|]. split; [exact Hd'|].
    split; [exact Hle | exact Hfit].
Qed.

Lemma length_two (l : list byte) :
  length l = 2%nat -> exists a b, l = [a; b].
Proof. destruct l as [|a [|b [|? ?]]]; try discriminate. eauto. Qed.

Lemma length_three (l : list byte) :
  length l = 3%nat -> exists a b c, l = [a; b; c].
Proof. destruct l as [|a [|b [|c [|? ?]]]]; try discriminate. eauto. Qed.

Lemma length_four (l : list byte) :
  length l = 4%nat -> exists a b c e, l = [a; b; c; e].
Proof. destruct l as [|a [|b [|c [|e [|? ?]]]]]; try discriminate. eauto. Qed.

Lemma on_socket_trace (d : Driver) (bytes : list byte) :
  trace (on_socket d bytes) = trace d.
Proof. reflexivity. Qed.

Lemma event_block_cases (tag : byte) (d : Driver)
    (k : list byte -> Driver -> Exec) :
  (exists msg d',
     event_block ([tag] ++ replicate (kBufSize - 1) x00) d k = Aborted msg d' /\
     trace d' = trace d) \/
  (exists h0 h1 payload rest zeros,
     arrived (sock_fd_ d) = [h0; h1] ++ payload ++ rest /\
     u8 h1 = Z.of_nat (length payload) /\
     event_block ([tag] ++ replicate (kBufSize - 1) x00) d k
     = k (([tag; h0; h1] ++ payload) ++ zeros)
         (emit [capture ([h0; h1] ++ payload) INCOMING EVT;
                hciEventReceived ([h0; h1] ++ payload)]
               (on_socket d rest))).
Proof.
  unfold event_block.
  pose proof (recv_into_inv d ([tag] ++ replicate (kBufSize - 1) x00)
                kH4HeaderSize kHciEvtHeaderSize) as H1.
  destruct (recv_into d _ kH4HeaderSize kHciEvtHeaderSize) as [ret buf1 d1|d1].
  2:{ destruct H1 as (data & rest & _ & _ & Hle & Hbig).
      unfold kBufSize, kH4HeaderSize, kHciEvtHeaderSize in *. lia. }
  destruct H1 as (data & rest1 & Harr & -> & Hbuf & _ & _ & Hfull & _).
  destruct (Z.eqb_spec ret (Z.of_nat kHciEvtHeaderSize)) as [Hret|Hret]; cbn [negb].
  2:{ left. eexists _, _. split; reflexivity. }
  destruct (length_two data (Hfull Hret)) as (h0 & h1 & ->).
  change kH4HeaderSize with (length [tag]) in Hbuf.
  rewrite store_at_fresh in Hbuf by (unfold kBufSize; cbn; lia).
  subst buf1. cbn [app length] in *.
  unfold byte_at. cbn [nth]. cbv zeta.
  pose proof (u8_range h1) as Hh1.
  pose proof (recv_into_inv (on_socket d rest1)
                (tag :: h0 :: h1 :: replicate (kBufSize - 1 - 2) x00)
                (kH4HeaderSize + kHciEvtHeaderSize) (Z.to_nat (u8 h1))) as H2.
  destruct (recv_into (on_socket d rest1) _ (kH4HeaderSize + kHciEvtHeaderSize) _)
    as [ret2 buf2 d2|d2].
  2:{ destruct H2 as (data2 & rest2 & _ & _ & Hle & Hbig).
      unfold kBufSize, kH4HeaderSize, kHciEvtHeaderSize in *. lia. }
  destruct H2 as (data2 & rest2 & Harr2 & -> & Hbuf2 & _ & _ & Hfull2 & _).
  destruct (Z.eqb_spec ret2 (u8 h1)) as [Hret2|Hret2]; cbn [negb].
  2:{ left. eexists _, _. split; reflexivity. }
  assert (length data2 = Z.to_nat (u8 h1)) as Hlen2 by (apply Hfull2; lia).
  right. exists h0, h1, data2, rest2,
    (replicate (kBufSize - 1 - 2 - length data2) x00).
  cbn [sock_fd_ on_socket arrived] in Harr2. subst rest1.
  split; [exact Harr|]. split; [lia|].
  change (kH4HeaderSize + kHciEvtHeaderSize)%nat with (length [tag; h0; h1]) in Hbuf2.
  change (tag :: h0 :: h1 :: replicate (kBufSize - 1 - 2) x00)
    with ([tag; h0; h1] ++ replicate (kBufSize - 1 - 2) x00) in Hbuf2.
  rewrite store_at_fresh in Hbuf2 by (unfold kBufSize; cbn; lia).
  subst buf2.
  erewrite (range_of_frame _ _ _ tag ([h0; h1] ++ data2));
    [ | reflexivity | reflexivity
      | unfold kH4HeaderSize, kHciEvtHeaderSize; rewrite Hret2;
        cbn [length app]; lia ].
  reflexivity.
Qed.

Lemma sco_block_cases (tag : byte) (d : Driver)
    (k : list byte -> Driver -> Exec) :
  (exists msg d',
     sco_block ([tag] ++ replicate (kBufSize - 1) x00) d k = Aborted msg d' /\
     trace d' = trace d) \/
  (exists h0 h1 h2 payload rest zeros,
     arrived (sock_fd_ d) = [h0; h1; h2] ++ payload ++ rest /\
     u8 h2 = Z.of_nat (length payload) /\
     sco_block ([tag] ++ replicate (kBufSize - 1) x00) d k
     = k (([tag; h0; h1; h2] ++ payload) ++ zeros)
         (emit [capture ([h0; h1; h2] ++ payload) INCOMING SCO;
                scoDataReceived ([h0; h1; h2] ++ payload)]
               (on_socket d rest))).
Proof.
  unfold sco_block.
  pose proof (recv_into_inv d ([tag] ++ replicate (kBufSize - 1) x00)
                kH4HeaderSize kHciScoHeaderSize) as H1.
  destruct (recv_into d _ kH4HeaderSize kHciScoHeaderSize) as [ret buf1 d1|d1].
  2:{ destruct H1 as (data & rest & _ & _ & Hle & Hbig).
      unfold kBufSize, kH4HeaderSize, kHciScoHeaderSize in *. lia. }
  destruct H1 as (data & rest1 & Harr & -> & Hbuf & _ & _ & Hfull & _).
  destruct (Z.eqb_spec ret (Z.of_nat kHciScoHeaderSize)) as [Hret|Hret]; cbn [negb].
  2:{ left. eexists _, _. split; reflexivity. }
  destruct (length_three data (Hfull Hret)) as (h0 & h1 & h2 & ->).
  change kH4HeaderSize with (length [tag]) in Hbuf.
  rewrite store_at_fresh in Hbuf by (unfold kBufSize; cbn; lia).
  subst buf1. cbn [app length] in *.
  unfold byte_at. cbn [nth]. cbv zeta.
  pose proof (u8_range h2) as Hh2.
  pose proof (recv_into_inv (on_socket d rest1)
                (tag :: h0 :: h1 :: h2 :: replicate (kBufSize - 1 - 3) x00)
                (kH4HeaderSize + kHciScoHeaderSize) (Z.to_nat (u8 h2))) as H2.
  destruct (recv_into (on_socket d rest1) _ (kH4HeaderSize + kHciScoHeaderSize) _)
    as [ret2 buf2 d2|d2].
  2:{ destruct H2 as (data2 & rest2 & _ & _ & Hle & Hbig).
      unfold kBufSize, kH4HeaderSize, kHciScoHeaderSize in *. lia. }
  destruct H2 as (data2 & rest2 & Harr2 & -> & Hbuf2 & _ & _ & Hfull2 & _).
  destruct (Z.eqb_spec ret2 (u8 h2)) as [Hret2|Hret2]; cbn [negb].
  2:{ left. eexists _, _. split; reflexivity. }
  assert (length data2 = Z.to_nat (u8 h2)) as Hlen2 by (apply Hfull2; lia).
  right. exists h0, h1, h2, data2, rest2,
    (replicate (kBufSize - 1 - 3 - length data2) x00).
  cbn [sock_fd_ on_socket arrived] in Harr2. subst rest1.
  split; [exact Harr|]. split; [lia|].
  change (kH4HeaderSize + kHciScoHeaderSize)%nat
    with (length [tag; h0; h1; h2]) in Hbuf2.
  change (tag :: h0 :: h1 :: h2 :: replicate (kBufSize - 1 - 3) x00)
    with ([tag; h0; h1; h2] ++ replicate (kBufSize - 1 - 3) x00) in Hbuf2.
  rewrite store_at_fresh in Hbuf2 by (unfold kBufSize; cbn; lia).
  subst buf2.
  erewrite (range_of_frame _ _ _ tag ([h0; h1; h2] ++ data2));
    [ | reflexivity | reflexivity
      | unfold kH4HeaderSize, kHciScoHeaderSize; rewrite Hret2;
        cbn [length app]; lia ].
  reflexivity.
Qed.

Lemma acl_block_cases (tag : byte) (d : Driver)
    (k : list byte -> Driver -> Exec) :
  (exists msg d',
     acl_block ([tag] ++ replicate (kBufSize - 1) x00) d k = Aborted msg d' /\
     trace d' = trace d) \/
  (exists hdr stored rest,
     acl_block ([tag] ++ replicate (kBufSize - 1) x00) d k
     = Overrun (on_socket d rest) /\
     arrived (sock_fd_ d) = hdr ++ stored ++ rest /\
     length hdr = kHciAclHeaderSize /\
     (kBufSize - kH4HeaderSize - kHciAclHeaderSize < length stored)%nat /\
     Z.of_nat (length stored) <= declared_length AclFrame hdr) \/
  (exists h0 h1 h2 h3 payload rest zeros,
     arrived (sock_fd_ d) = [h0; h1; h2; h3] ++ payload ++ rest /\
     u8 h2 + 256 * u8 h3 = Z.of_nat (length payload) /\
     (kH4HeaderSize + kHciAclHeaderSize + length payload <= kBufSize)%nat /\
     acl_block ([tag] ++ replicate (kBufSize - 1) x00) d k
     = k (([tag; h0; h1; h2; h3] ++ payload) ++ zeros)
         (emit [capture ([h0; h1; h2; h3] ++ payload) INCOMING ACL;
                aclDataReceived ([h0; h1; h2; h3] ++ payload)]
               (on_socket d rest))).
Proof.
  unfold acl_block.
  pose proof (recv_into_inv d ([tag] ++ replicate (kBufSize - 1) x00)
                kH4HeaderSize kHciAclHeaderSize) as H1.
  destruct (recv_into d _ kH4HeaderSize kHciAclHeaderSize) as [ret buf1 d1|d1].
  2:{ destruct H1 as (data & rest & _ & _ & Hle & Hbig).
      unfold kBufSize, kH4HeaderSize, kHciAclHeaderSize in *. lia. }
  destruct H1 as (data & rest1 & Harr & -> & Hbuf & _ & _ & Hfull & _).
  destruct (Z.eqb_spec ret (Z.of_nat kHciAclHeaderSize)) as [Hret|Hret]; cbn [negb].
  2:{ left. eexists _, _. split; reflexivity. }
  destruct (length_four data (Hfull Hret)) as (h0 & h1 & h2 & h3 & ->).
  change kH4HeaderSize with (length [tag]) in Hbuf.
  rewrite store_at_fresh in Hbuf by (unfold kBufSize; cbn; lia).
  subst buf1. cbn [app length] in *.
  unfold byte_at. cbn [nth]. cbv zeta.
  pose proof (u8_range h2) as Hh2. pose proof (u8_range h3) as Hh3.
  assert ((u8 h3 * 256 + u8 h2) mod 2 ^ 16 = u8 h2 + 256 * u8 h3) as ->
    by (rewrite Z.mod_small; lia).
  set (L := u8 h2 + 256 * u8 h3) in *.
  pose proof (recv_into_inv (on_socket d rest1)
                (tag :: h0 :: h1 :: h2 :: h3 :: replicate (kBufSize - 1 - 4) x00)
                (kH4HeaderSize + kHciAclHeaderSize) (Z.to_nat L)) as H2.
  destruct (recv_into (on_socket d rest1) _ (kH4HeaderSize + kHciAclHeaderSize) _)
    as [ret2 buf2 d2|d2].
  2:{ destruct H2 as (data2 & rest2 & Harr2 & -> & Hle & Hbig).
      right. left. exists [h0; h1; h2; h3], data2, rest2.
      cbn [sock_fd_ on_socket arrived] in Harr2. subst rest1.
      split; [reflexivity|]. split; [exact Harr|]. split; [reflexivity|].
      unfold kBufSize, kH4HeaderSize, kHciAclHeaderSize in *.
      cbn [declared_length nth]. fold L. split; lia. }
  destruct H2 as (data2 & rest2 & Harr2 & -> & Hbuf2 & _ & Hfit & Hfull2 & _).
  destruct (Z.eqb_spec ret2 L) as [Hret2|Hret2]; cbn [negb].
  2:{ left. eexists _, _. split; reflexivity. }
  assert (length data2 = Z.to_nat L) as Hlen2 by (apply Hfull2; lia).
  destruct (Z.leb_spec L (Z.of_nat kBufSize - Z.of_nat kH4HeaderSize
                          - Z.of_nat kHciAclHeaderSize)) as [Hok|Hlong];
    cbn [negb].
  2:{ left. eexists _, _. split; reflexivity. }
  right. right. exists h0, h1, h2, h3, data2, rest2,
    (replicate (kBufSize - 1 - 4 - length data2) x00).
  cbn [sock_fd_ on_socket arrived] in Harr2. subst rest1.
  split; [exact Harr|]. split; [lia|]. split; [exact Hfit|].
  change (kH4HeaderSize + kHciAclHeaderSize)%nat
    with (length [tag; h0; h1; h2; h3]) in Hbuf2.
  change (tag :: h0 :: h1 :: h2 :: h3 :: replicate (kBufSize - 1 - 4) x00)
    with ([tag; h0; h1; h2; h3] ++ replicate (kBufSize - 1 - 4) x00) in Hbuf2.
  rewrite store_at_fresh in Hbuf2
    by (unfold kBufSize, kH4HeaderSize, kHciAclHeaderSize in *; cbn; lia).
  subst buf2.
  erewrite (range_of_frame _ _ _ tag ([h0; h1; h2; h3] ++ data2));
    [ | reflexivity | reflexivity
      | unfold kH4HeaderSize, kHciAclHeaderSize; rewrite Hret2;
        cbn [length app]; lia ].
  reflexivity.
Qed.

(** Every way one run of the read callback can end. *)
Lemma incoming_packet_received_cases (d : Driver) :
  match incoming_packet_received d with
  | Returned d' =>
      incoming_packet_callback_ d = true /\
      ((arrived (sock_fd_ d) = [] /\ peer_closed (sock_fd_ d) = true /\
        d' = emit [raise_SIGINT] d) \/
       (exists tag rest,
          arrived (sock_fd_ d) = tag :: rest /\
          tag <> kH4Event /\ tag <> kH4Acl /\ tag <> kH4Sco /\
          d' = on_socket d rest) \/
       (exists k hdr payload rest,
          arrived (sock_fd_ d) = frame_tag k :: hdr ++ payload ++ rest /\
          well_formed_frame k hdr payload /\
          d' = emit [capture (hdr ++ payload) INCOMING (frame_type k);
                     delivered k (hdr ++ payload)]
                    (on_socket d rest)))
  | Aborted _ d' => trace d' = trace d
  | Overrun d' =>
      trace d' = trace d /\
      exists hdr stored rest,
        d' = on_socket d rest /\
        arrived (sock_fd_ d) = kH4Acl :: hdr ++ stored ++ rest /\
        length hdr = kHciAclHeaderSize /\
        (kBufSize - kH4HeaderSize - kHciAclHeaderSize < length stored)%nat /\
        Z.of_nat (length stored) <= declared_length AclFrame hdr
  end.
Proof.
  unfold incoming_packet_received.
  destruct (incoming_packet_callback_ d) eqn:Hcb; cbn [negb]; [|reflexivity].
  pose proof (recv_into_inv d (replicate kBufSize x00) 0 kH4HeaderSize) as H1.
  destruct (recv_into d _ 0 kH4HeaderSize) as [ret buf1 d1|d1].
  2:{ destruct H1 as (data & rest & _ & _ & Hle & Hbig).
      unfold kBufSize, kH4HeaderSize in *. lia. }
  destruct H1 as (data & rest & Harr & Hd1 & Hbuf & Hle & _ & _ & Hnil & Hzero & Hsome).
  destruct (Z.eqb_spec ret (-1)) as [Hm1|Hm1]; [subst d1; reflexivity|].
  destruct (Z.eqb_spec ret 0) as [H0|H0].
  { destruct (Hzero ltac:(unfold kH4HeaderSize; lia) H0) as [Hempty Hclosed].
    split; [reflexivity|]. left.
    assert (data = []) as Hdata.
    { rewrite Hempty in Harr. destruct data; [reflexivity | discriminate]. }
    rewrite (Hnil Hdata). auto. }
  specialize (Hsome H0 Hm1).
  destruct data as [|tag [|? ?]]; [contradiction | | cbn in Hle; unfold kH4HeaderSize in Hle; lia].
  cbn [app] in Harr. subst d1.
  change (replicate kBufSize x00) with ([] ++ replicate kBufSize x00) in Hbuf.
  change 0%nat with (length (@nil byte)) in Hbuf.
  rewrite store_at_fresh in Hbuf by (unfold kBufSize; cbn; lia).
  subst buf1. cbn [app length].
  change (byte_at (tag :: replicate (kBufSize - 1) x00) 0) with tag.
  change (tag :: replicate (kBufSize - 1) x00)
    with ([tag] ++ replicate (kBufSize - 1) x00).
  destruct (Byte.eqb tag kH4Event) eqn:Hev.
  { apply Byte.byte_dec_bl in Hev. subst tag.
    match goal with |- context [event_block ?b ?d ?k] =>
      destruct (event_block_cases kH4Event d k)
        as [(msg & d' & -> & Htr)
           |(h0 & h1 & payload & rest' & zeros & Harr' & Hlen & ->)]
    end.
    - exact Htr.
    - cbn [app]. unfold byte_at. cbn [nth].
      change (Byte.eqb kH4Event kH4Acl) with false.
      change (Byte.eqb kH4Event kH4Sco) with false. cbv iota.
      split; [reflexivity|]. right. right.
      exists EventFrame, [h0; h1], payload, rest'.
      cbn [sock_fd_ on_socket arrived] in Harr'. subst rest.
      split; [exact Harr|]. split; [|reflexivity].
      split; [reflexivity|]. split; [exact Hlen|].
      pose proof (u8_range h1). unfold kH4HeaderSize, kBufSize. cbn [length]. lia. }
  destruct (Byte.eqb tag kH4Acl) eqn:Hacl.
  { apply Byte.byte_dec_bl in Hacl. subst tag.
    match goal with |- context [acl_block ?b ?d ?k] =>
      destruct (acl_block_cases kH4Acl d k)
        as [(msg & d' & -> & Htr)
           |[(hdr & stored & rest' & -> & Harr' & Hh & Hbig & Hdecl)
            |(h0 & h1 & h2 & h3 & payload & rest' & zeros & Harr' & Hlen & Hfit & ->)]]
    end.
    - exact Htr.
    - split; [reflexivity|]. exists hdr, stored, rest'.
      cbn [sock_fd_ on_socket arrived] in Harr'. subst rest.
      split; [reflexivity|]. split; [exact Harr|]. auto.
    - cbn [app]. unfold byte_at. cbn [nth].
      change (Byte.eqb kH4Acl kH4Sco) with false. cbv iota.
      split; [reflexivity|]. right. right.
      exists AclFrame, [h0; h1; h2; h3], payload, rest'.
      cbn [sock_fd_ on_socket arrived] in Harr'. subst rest.
      split; [exact Harr|]. split; [|reflexivity].
      split; [reflexivity|]. split; [exact Hlen|]. exact Hfit. }
  destruct (Byte.eqb tag kH4Sco) eqn:Hsco.
  { apply Byte.byte_dec_bl in Hsco. subst tag.
    match goal with |- context [sco_block ?b ?d ?k] =>
      destruct (sco_block_cases kH4Sco d k)
        as [(msg & d' & -> & Htr)
           |(h0 & h1 & h2 & payload & rest' & zeros & Harr' & Hlen & ->)]
    end.
    - exact Htr.
    - split; [reflexivity|]. right. right.
      exists ScoFrame, [h0; h1; h2], payload, rest'.
      cbn [sock_fd_ on_socket arrived] in Harr'. subst rest.
      split; [exact Harr|]. split; [|reflexivity].
      split; [reflexivity|]. split; [exact Hlen|].
      pose proof (u8_range h2). unfold kH4HeaderSize, kBufSize. cbn [length]. lia. }
  split; [reflexivity|]. right. left. exists tag, rest.
  apply Byte.eqb_false in Hev, Hacl, Hsco. auto 6.
Qed.

(** X1 -- whenever the read callback returns, one of three things has
    happened: the peer had closed the connection with nothing left to read,
    and SIGINT was raised; or one byte that is none of the Event, ACL and SCO
    tags was taken off the socket and nothing else was done; or exactly one
    well-formed frame was taken off the socket, captured as incoming and
    handed to the callback of its kind.  It never returns in the middle of a
    frame and never delivers two. *)
Theorem returned_reads_are_whole_frames (d d' : Driver) :
  incoming_packet_received d = Returned d' ->
  (arrived (sock_fd_ d) = [] /\ peer_closed (sock_fd_ d) = true /\
   d' = emit [raise_SIGINT] d) \/
  (exists tag rest,
     arrived (sock_fd_ d) = tag :: rest /\
     tag <> kH4Event /\ tag <> kH4Acl /\ tag <> kH4Sco /\
     d' = on_socket d rest) \/
  (exists k hdr payload rest,
     arrived (sock_fd_ d) = frame_tag k :: hdr ++ payload ++ rest /\
     well_formed_frame k hdr payload /\
     d' = emit [capture (hdr ++ payload) INCOMING (frame_type k);
                delivered k (hdr ++ payload)]
               (on_socket d rest)).
Proof.
  intros H. pose proof (incoming_packet_received_cases d) as Hc.
  rewrite H in Hc. apply Hc.
Qed.

(** X2 -- a run of the read callback that stops on an assertion, or that
    writes past the end of its buffer, has captured nothing and delivered
    nothing. *)
Theorem failed_read_delivers_nothing (d d' : Driver) :
  (exists msg, incoming_packet_received d = Aborted msg d') \/
  incoming_packet_received d = Overrun d' ->
  trace d' = trace d.
Proof.
  intros H. pose proof (incoming_packet_received_cases d) as Hc.
  destruct H as [[msg H]|H]; rewrite H in Hc; [exact Hc | apply Hc].
Qed.

(** X3 -- the read callback writes past the end of its buffer only for an
    ACL frame: the tag and the four header bytes have been read, and more
    than [kBufSize - kH4HeaderSize - kHciAclHeaderSize] payload bytes, but no
    more than the header declares, have been received behind them. *)
Theorem overrun_needs_oversized_acl (d d' : Driver) :
  incoming_packet_received d = Overrun d' ->
  exists hdr stored rest,
    d' = on_socket d rest /\
    arrived (sock_fd_ d) = kH4Acl :: hdr ++ stored ++ rest /\
    length hdr = kHciAclHeaderSize /\
    (kBufSize - kH4HeaderSize - kHciAclHeaderSize < length stored)%nat /\
    Z.of_nat (length stored) <= declared_length AclFrame hdr.
Proof.
  intros H. pose proof (incoming_packet_received_cases d) as Hc.
  rewrite H in Hc. apply Hc.
Qed.

(** *** The write side *)

Lemma started_queue (t : Transport) (q : list (list byte)) (r : Driver)
    (w : list byte) :
  started t ->
  started {| reader := r; connected := connected t;
             reactable_ := Some (negb (bool_decide (q = [])));
             btsnoop_logger_ := btsnoop_logger_ t;
             hci_outgoing_queue_ := q; wire := w |}.
Proof. intros (Hc & Hl & _). repeat split; assumption. Qed.

Lemma send_tagged_started (type : PacketType) (tag : byte) (p : list byte)
    (t : Transport) :
  started t ->
  exists t',
    send_tagged type tag p t = Done t' /\ started t' /\
    hci_outgoing_queue_ t' = hci_outgoing_queue_ t ++ [tag :: p] /\
    wire t' = wire t /\
    trace (reader t') = trace (reader t) ++ [capture p OUTGOING type].
Proof.
  intros Hs. pose proof Hs as (Hc & Hl & Hr).
  unfold send_tagged. rewrite Hc, Hl. cbn [negb]. cbv zeta.
  unfold write_to_rootcanal_fd. cbv zeta.
  cbn [hci_outgoing_queue_ set_outgoing_queue set_reader].
  destruct (hci_outgoing_queue_ t) as [|f q] eqn:Hq.
  - cbn [app length Nat.eqb]. unfold ModifyRegistration.
    cbn [reactable_ set_outgoing_queue set_reader]. rewrite Hr.
    eexists. split; [reflexivity|].
    split; [|cbn; auto].
    repeat split; cbn; assumption.
  - replace (length ((f :: q) ++ [tag :: p]) =? 1)%nat with false
      by (symmetry; apply Nat.eqb_neq; rewrite length_app; cbn; lia).
    eexists. split; [reflexivity|].
    split; [|cbn; auto].
    repeat split; cbn; assumption.
Qed.

Lemma write_ready_started (t : Transport) :
  started t ->
  exists t',
    write_ready write_all t = Done t' /\ started t' /\
    hci_outgoing_queue_ t' = tail (hci_outgoing_queue_ t) /\
    wire t' = wire t ++ concat (take 1 (hci_outgoing_queue_ t)) /\
    reader t' = reader t.
Proof.
  intros Hs. pose proof Hs as (Hc & Hl & Hr).
  unfold write_ready. rewrite Hr.
  destruct (hci_outgoing_queue_ t) as [|f q] eqn:Hq.
  - rewrite bool_decide_eq_true_2 by reflexivity. cbn [negb].
    exists t. rewrite Hq, app_nil_r. auto.
  - rewrite bool_decide_eq_false_2 by discriminate. cbn [negb].
    unfold on_write_ready. rewrite Hq. cbv zeta.
    unfold write_all.
    destruct (Z.eqb_spec (Z.of_nat (length f)) (-1)) as [E|_]; [lia|].
    rewrite Nat2Z.id, firstn_all.
    cbn [hci_outgoing_queue_ set_outgoing_queue set_wire wire].
    unfold ModifyRegistration. cbn [reactable_ set_outgoing_queue set_wire].
    rewrite Hr.
    destruct q as [|g q].
    + rewrite bool_decide_eq_true_2 by reflexivity.
      eexists. split; [reflexivity|].
      split; [repeat split; cbn; assumption|].
      cbn. rewrite app_nil_r. auto.
    + rewrite bool_decide_eq_false_2 by discriminate.
      eexists. split; [reflexivity|].
      split; [repeat split; cbn; assumption|].
      cbn. rewrite app_nil_r. auto.
Qed.

Lemma run_op_started (op : Op) (t : Transport) :
  started t ->
  exists t',
    run_op write_all op t = Done t' /\ started t' /\
    wire t' ++ concat (hci_outgoing_queue_ t')
    = wire t ++ concat (hci_outgoing_queue_ t) ++ concat (frame_of op) /\
    trace (reader t') = trace (reader t) ++ capture_of op.
Proof.
  intros Hs. destruct op as [p|p|p|]; cbn [run_op frame_of capture_of].
  1-3: unfold sendHciCommand, sendAclData, sendScoData;
    match goal with |- context [send_tagged ?ty ?tag ?pkt _] =>
      destruct (send_tagged_started ty tag pkt t Hs)
        as (t' & -> & Hs' & Hq & Hw & Htr)
    end;
    exists t'; split; [reflexivity|]; split; [exact Hs'|];
    rewrite Hq, Hw, concat_app; auto.
  destruct (write_ready_started t Hs) as (t' & -> & Hs' & Hq & Hw & Hrd).
  exists t'. split; [reflexivity|]. split; [exact Hs'|].
  rewrite Hq, Hw, Hrd.
  destruct (hci_outgoing_queue_ t) as [|f q]; cbn; rewrite ?app_nil_r;
    split; try reflexivity.
  rewrite <- !app_assoc. reflexivity.
Qed.

(** X4 -- on a started driver whose socket takes every buffer whole, any
    interleaving of the three send functions and of write-readiness events
    runs through without an abort, and no byte is lost, repeated or
    reordered: what the socket has accepted followed by what is still queued
    is the tagged frames in the order they were sent.  Every packet sent is
    captured as outgoing, without its tag, in the same order, and the write
    callback stays installed exactly while frames are queued. *)
Theorem outgoing_frames_conserved (ops : list Op) (t : Transport) :
  started t ->
  exists t',
    run_ops write_all ops t = Done t' /\ started t' /\
    wire t' ++ concat (hci_outgoing_queue_ t')
    = wire t ++ concat (hci_outgoing_queue_ t) ++ concat (flat_map frame_of ops) /\
    trace (reader t') = trace (reader t) ++ flat_map capture_of ops.
Proof.
  revert t. induction ops as [|op ops IH]; intros t Hs.
  - exists t. cbn. rewrite !app_nil_r. auto.
  - destruct (run_op_started op t Hs) as (t1 & Hrun & Hs1 & Hw1 & Htr1).
    destruct (IH t1 Hs1) as (t' & Hrun' & Hs' & Hw' & Htr').
    exists t'. cbn [run_ops flat_map]. rewrite Hrun.
    split; [exact Hrun'|]. split; [exact Hs'|].
    rewrite Hw', Htr', (app_assoc (wire t1)), Hw1, Htr1, concat_app,
      <- !app_assoc. auto.
Qed.

(** X5 -- on such a driver each write-readiness event writes exactly the
    front frame of the queue, oldest first: [n] events write the first [n]
    queued frames, and events beyond the length of the queue do nothing.
    The read side is untouched. *)
Theorem write_ready_drains_one_frame_each (n : nat) (t : Transport) :
  started t ->
  exists t',
    run_ops write_all (replicate n WriteReady) t = Done t' /\ started t' /\
    hci_outgoing_queue_ t' = drop n (hci_outgoing_queue_ t) /\
    wire t' = wire t ++ concat (take n (hci_outgoing_queue_ t)) /\
    reader t' = reader t.
Proof.
  revert t. induction n as [|n IH]; intros t Hs.
  - exists t. cbn. rewrite drop_0, app_nil_r. auto.
  - destruct (write_ready_started t Hs) as (t1 & Hrun & Hs1 & Hq1 & Hw1 & Hr1).
    destruct (IH t1 Hs1) as (t' & Hrun' & Hs' & Hq' & Hw' & Hr').
    exists t'. cbn [replicate run_ops run_op]. rewrite Hrun.
    split; [exact Hrun'|]. split; [exact Hs'|].
    rewrite Hq', Hw', Hr', Hq1, Hw1, Hr1.
    destruct (hci_outgoing_queue_ t) as [|f q]; cbn.
    + rewrite drop_nil, take_nil. cbn. rewrite !app_nil_r. auto.
    + rewrite app_nil_r, <- app_assoc. auto.
Qed.

Lemma disarmed_with_pending_stays (write : list byte -> Z) (ops : list Op) :
  forall t : Transport,
    connected t = true -> btsnoop_logger_ t = Live ->
    reactable_ t = Some false -> hci_outgoing_queue_ t <> [] ->
    exists t',
      run_ops write ops t = Done t' /\ wire t' = wire t /\
      hci_outgoing_queue_ t'
      = hci_outgoing_queue_ t ++ flat_map frame_of ops.
Proof.
  induction ops as [|op ops IH]; intros t Hc Hl Hr Hq.
  - exists t. cbn. rewrite app_nil_r. auto.
  - assert (exists t1, run_op write op t = Done t1 /\ wire t1 = wire t /\
                       hci_outgoing_queue_ t1 = hci_outgoing_queue_ t ++ frame_of op /\
                       connected t1 = true /\ btsnoop_logger_ t1 = Live /\
                       reactable_ t1 = Some false) as (t1 & Hrun & Hw & Hq1 & Hc1 & Hl1 & Hr1).
    { destruct op as [p|p|p|]; cbn [run_op frame_of].
      4:{ unfold write_ready. rewrite Hr. exists t. rewrite app_nil_r. auto 6. }
      all: unfold sendHciCommand, sendAclData, sendScoData, send_tagged;
        rewrite Hc, Hl; cbn [negb]; cbv zeta; unfold write_to_rootcanal_fd;
        cbv zeta; cbn [hci_outgoing_queue_ set_outgoing_queue set_reader];
        match goal with |- context [(length ?l =? 1)%nat] =>
          replace (length l =? 1)%nat with false
            by (symmetry; apply Nat.eqb_neq; rewrite length_app;
                destruct (hci_outgoing_queue_ t); [contradiction | cbn; lia])
        end;
        eexists; split; [reflexivity|]; cbn; auto 6. }
    destruct (IH t1 Hc1 Hl1 Hr1) as (t' & Hrun' & Hw' & Hq').
    { rewrite Hq1. destruct (hci_outgoing_queue_ t); [contradiction | discriminate]. }
    exists t'. cbn [run_ops flat_map]. rewrite Hrun.
    split; [exact Hrun'|]. rewrite Hw', Hw, Hq', Hq1, <- app_assoc. auto.
Qed.

(** X6 -- [Stop] does not empty the outgoing queue and [Start] registers
    without a write callback.  So when a driver with frames still queued is
    stopped and started again, the write callback is never installed again:
    whatever is sent afterwards, and whenever the socket is writable, the
    frames only pile up behind the old ones and no byte is written. *)
Theorem restart_with_pending_frames_stalls
    (write : list byte -> Z) (s : Socket) (ops : list Op) (t : Transport) :
  started t ->
  hci_outgoing_queue_ t <> [] ->
  exists t1 t2 t',
    Stop t = Done t1 /\ Start (Some s) t1 = Done t2 /\
    run_ops write ops t2 = Done t' /\
    wire t' = wire t /\
    hci_outgoing_queue_ t'
    = hci_outgoing_queue_ t ++ flat_map frame_of ops.
Proof.
  intros (Hc & Hl & Hr) Hq.
  assert (exists t1 t2,
            Stop t = Done t1 /\ Start (Some s) t1 = Done t2 /\
            connected t2 = true /\ btsnoop_logger_ t2 = Live /\
            reactable_ t2 = Some false /\
            hci_outgoing_queue_ t2 = hci_outgoing_queue_ t /\
            wire t2 = wire t)
    as (t1 & t2 & Hstop & Hstart & Hc2 & Hl2 & Hr2 & Hq2 & Hw2).
  { unfold Stop. rewrite Hl, Hc. cbn [negb]. rewrite andb_false_r.
    do 2 eexists. split; [reflexivity|]. unfold Start. cbn [connected].
    split; [reflexivity|]. cbn. auto 6. }
  destruct (disarmed_with_pending_stays write ops t2 Hc2 Hl2 Hr2)
    as (t' & Hrun & Hw & Hq'); [rewrite Hq2; exact Hq|].
  exists t1, t2, t'. rewrite Hw, Hq', Hw2, Hq2. auto 6.
Qed.

(** X7 -- after [Stop] every send function stops on the descriptor
    assertion, write readiness does nothing, the receiver callback is
    unregistered, and the outgoing queue and the bytes already written are
    as they were. *)
Theorem stop_refuses_sends_and_keeps_queue
    (write : list byte -> Z) (t t' : Transport) :
  Stop t = Done t' ->
  (forall p, sendHciCommand p t' = Abort "sock_fd_ != INVALID_FD" /\
             sendAclData p t' = Abort "sock_fd_ != INVALID_FD" /\
             sendScoData p t' = Abort "sock_fd_ != INVALID_FD") /\
  write_ready write t' = Done t' /\
  hci_outgoing_queue_ t' = hci_outgoing_queue_ t /\
  wire t' = wire t /\
  incoming_packet_callback_ (reader t') = false.
Proof.
  unfold Stop.
  destruct (btsnoop_logger_ t); [discriminate| |];
    (destruct (bool_decide (reactable_ t <> None) && negb (connected t));
     [discriminate|]; intros [= <-]; repeat split).
Qed.

(** *** Registering the receiver callback *)

(** X8 -- a receiver callback can be registered only when it is not null
    and none is registered: after a registration every further one stops on
    the assertion, until [Stop], which clears the callback, after which one
    can be registered again.  While none is registered the read callback
    stops on its first assertion without touching the socket. *)
Theorem callback_registered_once (callback : bool) (t t' : Transport) :
  registerIncomingPacketCallback callback t = Done t' ->
  callback = true /\
  on_read_ready t = Aborted "incoming_packet_callback_ != nullptr" (reader t) /\
  (forall callback',
     registerIncomingPacketCallback callback' t'
     = Abort "incoming_packet_callback_ == nullptr && callback != nullptr") /\
  (forall t'', Stop t' = Done t'' ->
               exists t3, registerIncomingPacketCallback true t'' = Done t3).
Proof.
  unfold registerIncomingPacketCallback.
  destruct (incoming_packet_callback_ (reader t)) eqn:Hcb, callback;
    cbn [negb andb]; try discriminate.
  intros [= <-]. split; [reflexivity|]. split; [|split].
  - unfold on_read_ready, incoming_packet_received. rewrite Hcb. reflexivity.
  - intros callback'. reflexivity.
  - intros t'' Hstop. unfold Stop in Hstop.
    cbn [btsnoop_logger_ set_reader reactable_ connected] in Hstop.
    destruct (btsnoop_logger_ t); [discriminate| |];
      (destruct (bool_decide (reactable_ t <> None) && negb (connected t));
       [discriminate|]; injection Hstop as <-; eexists; reflexivity).
Qed.

(** *** Concrete runs *)

Lemma returned_reads_are_whole_frames_witness :
  exists k hdr payload rest,
    arrived (sock_fd_ (driver_with [x03; x01; x00; x02; xaa; xbb; x04]))
    = frame_tag k :: hdr ++ payload ++ rest /\
    well_formed_frame k hdr payload /\ rest = [x04].
Proof.
  destruct (returned_reads_are_whole_frames
              (driver_with [x03; x01; x00; x02; xaa; xbb; x04])
              (emit [capture [x01; x00; x02; xaa; xbb] INCOMING SCO;
                     scoDataReceived [x01; x00; x02; xaa; xbb]]
                    (driver_with [x04]))
              eq_refl)
    as [(Hnil & _) | [(tag & rest & Harr & _ & _ & Hsco & _)
                     | (k & hdr & payload & rest & Harr & Hwf & Hd)]].
  - discriminate Hnil.
  - injection Harr as <- _. contradiction Hsco. reflexivity.
  - exists k, hdr, payload, rest. split; [exact Harr|]. split; [exact Hwf|].
    apply (f_equal (fun d => arrived (sock_fd_ d))) in Hd. cbn in Hd.
    symmetry. exact Hd.
Defined.

Lemma failed_read_delivers_nothing_witness :
  incoming_packet_received (driver_with [x04; x0e])
  = Aborted "malformed HCI event header received" (driver_with []) /\
  trace (driver_with []) = trace (driver_with [x04; x0e]).
Proof.
  split; [reflexivity|].
  apply (failed_read_delivers_nothing (driver_with [x04; x0e]) (driver_with [])).
  left. exists "malformed HCI event header received"%string. reflexivity.
Defined.

Lemma overrun_needs_oversized_acl_witness :
  exists hdr stored rest,
    arrived (sock_fd_ (driver_with (kH4Acl :: [x00; x00; xfc; x03]
                                      ++ replicate 1020 xaa ++ [kH4Event])))
    = kH4Acl :: hdr ++ stored ++ rest /\
    (kBufSize - kH4HeaderSize - kHciAclHeaderSize < length stored)%nat.
Proof.
  destruct (overrun_needs_oversized_acl
              (driver_with (kH4Acl :: [x00; x00; xfc; x03]
                              ++ replicate 1020 xaa ++ [kH4Event]))
              (driver_with [kH4Event]))
    as (hdr & stored & rest & _ & Harr & _ & Hbig & _).
  - apply (oversized_acl_payload_received_first
             [x00; x00; xfc; x03] (replicate 1020 xaa) [kH4Event]);
      vm_compute; (reflexivity || lia).
  - exists hdr, stored, rest. split; [exact Harr | exact Hbig].
Defined.

Lemma started_transport_started (queue : list (list byte)) :
  started (started_transport queue).
Proof. repeat split. Qed.

Lemma outgoing_frames_conserved_witness :
  exists t',
    run_ops write_all
      [SendCommand [x03; x0c; x00]; SendAcl [x01; x00; x01; x00; xff]; WriteReady]
      (started_transport []) = Done t' /\
    wire t' ++ concat (hci_outgoing_queue_ t')
    = [x01; x03; x0c; x00] ++ [x02; x01; x00; x01; x00; xff].
Proof.
  destruct (outgoing_frames_conserved
              [SendCommand [x03; x0c; x00]; SendAcl [x01; x00; x01; x00; xff];
               WriteReady]
              (started_transport []) (started_transport_started []))
    as (t' & Hrun & _ & Hwire & _).
  exists t'. split; [exact Hrun | exact Hwire].
Defined.

Lemma write_ready_drains_one_frame_each_witness :
  exists t',
    run_ops write_all (replicate 2 WriteReady)
      (started_transport [[x01; x03]; [x02; x05]; [x03; x07]]) = Done t' /\
    hci_outgoing_queue_ t' = [[x03; x07]] /\
    wire t' = [x01; x03; x02; x05].
Proof.
  destruct (write_ready_drains_one_frame_each 2
              (started_transport [[x01; x03]; [x02; x05]; [x03; x07]])
              (started_transport_started _))
    as (t' & Hrun & _ & Hq & Hw & _).
  exists t'. split; [exact Hrun|]. split; [exact Hq | exact Hw].
Defined.

Lemma restart_with_pending_frames_stalls_witness :
  exists t1 t2 t',
    Stop (started_transport [[x01; x03]]) = Done t1 /\
    Start (Some sample_socket) t1 = Done t2 /\
    run_ops write_all [SendCommand [x0c]; WriteReady; WriteReady] t2 = Done t' /\
    wire t' = [] /\
    hci_outgoing_queue_ t' = [[x01; x03]; [x01; x0c]].
Proof.
  apply (restart_with_pending_frames_stalls write_all sample_socket
           [SendCommand [x0c]; WriteReady; WriteReady]
           (started_transport [[x01; x03]]) (started_transport_started _)).
  discriminate.
Defined.

Lemma stop_refuses_sends_and_keeps_queue_witness :
  exists t',
    Stop (started_transport [[x01; x03]]) = Done t' /\
    sendHciCommand [x0c] t' = Abort "sock_fd_ != INVALID_FD" /\
    hci_outgoing_queue_ t' = [[x01; x03]].
Proof.
  eexists. split; [reflexivity|].
  destruct (stop_refuses_sends_and_keeps_queue write_all
              (started_transport [[x01; x03]]) _ eq_refl)
    as (Hsend & _ & Hq & _).
  split; [apply (Hsend [x0c]) | exact Hq].
Defined.
Lemma callback_registered_once_witness :
  exists t',
    registerIncomingPacketCallback true (new_Transport sample_socket) = Done t' /\
    registerIncomingPacketCallback true t'
    = Abort "incoming_packet_callback_ == nullptr && callback != nullptr".
Proof.
  eexists. split; [reflexivity|].
  destruct (callback_registered_once true (new_Transport sample_socket) _ eq_refl)
    as (_ & _ & Hagain & _).
  apply (Hagain true).
Defined.

End hal_more.

(** * Further properties of the address manager *)

Section manager_more.
Variable random : nat -> Z.
Variable aes_128 : list Z -> list Z -> list Z.

(** ** The format of generated addresses *)

Lemma resolvable_msb_bits (x : Z) :
  0 <= x < 256 ->
  64 <= Z.lor (clear_addr_mask x) 0x40 < 128.
Proof.
  intros Hx.
  pose proof (octet_cases
    (fun x => (64 <=? Z.lor (clear_addr_mask x) 0x40)
              && (Z.lor (clear_addr_mask x) 0x40 <? 128))
    ltac:(vm_compute; reflexivity) x Hx) as H.
  cbv beta in H. apply andb_true_iff in H as [H1 H2].
  apply Z.leb_le in H1. apply Z.ltb_lt in H2. lia.
Qed.

Lemma generate_rpa_is_resolvable_format (m : LeAddressManager) :
  64 <= nth 5 (generate_rpa random aes_128 m).1 0 < 128.
Proof.
  unfold generate_rpa, GenerateRandomBytes. cbn [map seq nth].
  set (p2 := random (random_drawn m + 2)%nat mod 256).
  assert (0 <= p2 < 256) as Hp2 by (apply Z.mod_pos_bound; lia).
  pose proof (resolvable_msb_bits p2 Hp2) as Hmsb.
  cbn [list_insert insert nth].
  match goal with |- context [if ?c then _ else _] => destruct c end;
    [rewrite random_octet_eq|];
    cbn [fst snd list_insert insert nth replicate]; exact Hmsb.
Qed.

(** X9 -- the address [generate_rpa] returns has six octets; its three most
    significant octets are the random part, each an octet, the top one with
    its two most significant bits 01; and its three least significant octets
    are the first three octets of [aes_128] of the rotation key and that
    random part. *)
Theorem generate_rpa_is_resolvable (m : LeAddressManager) :
  let a := (generate_rpa random aes_128 m).1 in
  length a = 6%nat /\
  0 <= nth 3 a 0 < 256 /\ 0 <= nth 4 a 0 < 256 /\
  64 <= nth 5 a 0 < 128 /\
  take 3 a
  = [nth 0 (aes_128 (rotation_irk_ m) (drop 3 a)) 0;
     nth 1 (aes_128 (rotation_irk_ m) (drop 3 a)) 0;
     nth 2 (aes_128 (rotation_irk_ m) (drop 3 a)) 0].
Proof.
  unfold generate_rpa, GenerateRandomBytes. cbn [map seq nth].
  set (p0 := random (random_drawn m + 0)%nat mod 256).
  set (p1 := random (random_drawn m + 1)%nat mod 256).
  set (p2 := random (random_drawn m + 2)%nat mod 256).
  assert (0 <= p0 < 256) as Hp0 by (apply Z.mod_pos_bound; lia).
  assert (0 <= p1 < 256) as Hp1 by (apply Z.mod_pos_bound; lia).
  assert (0 <= p2 < 256) as Hp2 by (apply Z.mod_pos_bound; lia).
  pose proof (resolvable_msb_bits p2 Hp2) as Hmsb.
  cbn [list_insert insert nth].
  rewrite random_octet_eq. cbn [random_drawn set_random_drawn].
  pose proof (redrawn_octet_range random (random_drawn m + 3)) as Hv.
  match goal with |- context [if ?c then _ else _] => destruct c end;
    cbn [fst snd list_insert insert nth replicate take drop length rotation_irk_
         set_random_drawn];
    repeat split; lia.
Qed.

(** X10 -- an address [generate_nrpa] returns has six octets, each in
    [0, 256), and the two most significant bits of its top octet are 00. *)
Theorem generate_nrpa_is_six_octets
    (fuel : nat) (m m' : LeAddressManager) (a : list Z) :
  generate_nrpa random fuel m = Some (a, m') ->
  is_address a /\ nth 5 a 0 < 64.
Proof.
  intros H.
  unfold generate_nrpa, GenerateRandomBytes in H. cbn [map seq nth] in H.
  set (r0 := random (random_drawn m + 0)%nat mod 256) in H.
  set (r1 := random (random_drawn m + 1)%nat mod 256) in H.
  set (r2 := random (random_drawn m + 2)%nat mod 256) in H.
  set (r3 := random (random_drawn m + 3)%nat mod 256) in H.
  set (r4 := random (random_drawn m + 4)%nat mod 256) in H.
  set (r5 := random (random_drawn m + 5)%nat mod 256) in H.
  assert (0 <= r0 < 256) as H0 by (apply Z.mod_pos_bound; lia).
  assert (0 <= r1 < 256) as H1 by (apply Z.mod_pos_bound; lia).
  assert (0 <= r2 < 256) as H2 by (apply Z.mod_pos_bound; lia).
  assert (0 <= r3 < 256) as H3 by (apply Z.mod_pos_bound; lia).
  assert (0 <= r4 < 256) as H4 by (apply Z.mod_pos_bound; lia).
  assert (0 <= r5 < 256) as H5 by (apply Z.mod_pos_bound; lia).
  destruct (clear_addr_mask_bits r5 H5) as (Hc & _ & _).
  cbn [list_insert insert nth] in H.
  rewrite random_octet_eq in H. cbn [random_drawn set_random_drawn] in H.
  pose proof (redrawn_octet_range random (random_drawn m + 6)) as Hv.
  set (v := redrawn_octet random (random_drawn m + 6)%nat) in *.
  assert (exists x0 m1,
            0 <= x0 < 256 /\
            redraw_while_public random fuel
              [x0; r1; r2; r3; r4; clear_addr_mask r5] m1 = Some (a, m'))
    as (x0 & m1 & Hx0 & Hloop).
  { revert H.
    match goal with |- context [if ?c then _ else _] => destruct c end;
      cbn [list_insert insert]; intros H;
      [exists v | exists r0]; eexists; (split; [lia | exact H]). }
  apply redraw_while_public_result in Hloop as [_ Hshape].
  assert (exists y0, 0 <= y0 < 256 /\
                     a = [y0; r1; r2; r3; r4; clear_addr_mask r5])
    as (y0 & Hy0 & ->).
  { destruct Hshape as [-> | [n ->]].
    - exists x0. split; [exact Hx0 | reflexivity].
    - pose proof (redrawn_octet_range random n).
      exists (redrawn_octet random n). split; [lia | reflexivity]. }
  split; [|cbn; lia].
  split; [reflexivity|].
  repeat (apply Forall_cons; split; [lia|]). constructor.
Qed.


(** ** Setting the policy *)

Lemma static_msb_bits (x : Z) :
  0 <= x < 256 ->
  ((Z.land x BLE_ADDR_MASK =? BLE_ADDR_MASK) = true <-> 192 <= x) /\
  (192 <= x -> (Z.land x 0x3F = 0 <-> x = 192) /\
               (Z.land x 0x3F = 0x3F <-> x = 255)).
Proof.
  intros Hx.
  pose proof (octet_cases
    (fun x => Bool.eqb (Z.land x BLE_ADDR_MASK =? BLE_ADDR_MASK) (192 <=? x)
              && (negb (192 <=? x)
                  || (Bool.eqb (Z.land x 0x3F =? 0) (x =? 192)
                      && Bool.eqb (Z.land x 0x3F =? 0x3F) (x =? 255))))
    ltac:(vm_compute; reflexivity) x Hx) as H.
  cbv beta in H. apply andb_true_iff in H as [H1 H2].
  apply Bool.eqb_prop in H1. split.
  - rewrite H1. apply Z.leb_le.
  - intros Hge. apply orb_true_iff in H2 as [H2|H2].
    + apply negb_true_iff, Z.leb_gt in H2. lia.
    + apply andb_true_iff in H2 as [Hz Ho].
      apply Bool.eqb_prop in Hz, Ho.
      rewrite <- !Z.eqb_eq, Hz, Ho. tauto.
Qed.

(** X11 -- setting the static-address policy on a fresh manager with a
    six-octet address succeeds exactly when the two most significant bits of
    the address are 11 and its remaining 46 bits are neither all 0 nor all
    1; it is fatal otherwise.  On success the address is recorded and one
    task is posted that hands [LeSetRandomAddress] of it to the
    controller. *)
Theorem static_address_is_validated
    (fixed_address : AddressWithType) (rotation_irk : list Z)
    (minimum maximum : Z) (m : LeAddressManager) :
  address_policy_ m = POLICY_NOT_SET ->
  registered_clients_ m = ∅ ->
  is_address (GetAddress fixed_address) ->
  match SetPrivacyPolicyForInitiatorAddress USE_STATIC_ADDRESS fixed_address
          rotation_irk minimum maximum m with
  | Ok m' =>
      192 <= nth 5 (GetAddress fixed_address) 0 /\
      all_zero (nrpa_random_bits (GetAddress fixed_address)) = false /\
      all_one (nrpa_random_bits (GetAddress fixed_address)) = false /\
      m' = post (enqueue_command_task
                   (LeSetRandomAddressBuilder (GetAddress fixed_address)))
             (set_le_address fixed_address
                (set_address_policy USE_STATIC_ADDRESS m))
  | Fatal _ =>
      nth 5 (GetAddress fixed_address) 0 < 192 \/
      all_zero (nrpa_random_bits (GetAddress fixed_address)) = true \/
      all_one (nrpa_random_bits (GetAddress fixed_address)) = true
  | _ => False
  end.
Proof.
  intros Hpolicy Hclients [Hlen Hoct].
  unfold SetPrivacyPolicyForInitiatorAddress.
  rewrite Hpolicy, Hclients.
  rewrite (bool_decide_eq_false_2 (POLICY_NOT_SET <> POLICY_NOT_SET))
    by (intros H; apply H; reflexivity).
  rewrite (bool_decide_eq_false_2 (USE_STATIC_ADDRESS = POLICY_NOT_SET))
    by discriminate.
  rewrite (bool_decide_eq_true_2 (∅ = ∅)) by reflexivity. cbn [negb]. cbv zeta.
  destruct (GetAddress fixed_address) as [|a0 [|a1 [|a2 [|a3 [|a4 [|a5 [|? ?]]]]]]]
    eqn:Haddr; try discriminate Hlen.
  cbn [nth].
  assert (0 <= a5 < 256) as Ha5.
  { do 5 (apply Forall_cons in Hoct as [_ Hoct]).
    apply Forall_cons in Hoct as [Hoct _]. exact Hoct. }
  destruct (static_msb_bits a5 Ha5) as [Hmsb Hlow].
  unfold all_zero, all_one, nrpa_random_bits.
  cbn [nth forallb length Nat.sub replicate app].
  destruct (Z.land a5 BLE_ADDR_MASK =? BLE_ADDR_MASK) eqn:Etop; cbn [negb].
  2:{ left. destruct (Z.le_gt_cases 192 a5) as [Hge|Hlt]; [|lia].
      apply Hmsb in Hge. congruence. }
  assert (192 <= a5) as Hge by (apply Hmsb; reflexivity).
  destruct (Hlow Hge) as [Hz Ho].
  match goal with |- context [if ?c then _ else _] => destruct c eqn:Hdeg end.
  - right. apply orb_true_iff in Hdeg as [Hd|Hd];
      rewrite !andb_true_iff, !Z.eqb_eq in Hd;
      destruct Hd as [[[[[-> ->] ->] ->] ->] E]; unfold BLE_ADDR_MASK in E.
    + left. cbn. apply Hz in E. rewrite E. reflexivity.
    + right. apply bool_decide_eq_true. apply Ho in E. rewrite E. reflexivity.
  - apply orb_false_iff in Hdeg as [Hd0 Hd1].
    split; [exact Hge|]. split; [|split].
    + rewrite andb_true_r.
      destruct (Z.eqb_spec (Z.land a5 63) 0) as [E|E].
      * apply Hz in E. subst a5. rewrite !andb_true_r.
        rewrite <- !andb_assoc in Hd0. rewrite !andb_assoc in Hd0.
        unfold BLE_ADDR_MASK in Hd0. rewrite Z.eqb_refl, andb_true_r in Hd0.
        rewrite !andb_assoc. exact Hd0.
      * rewrite !andb_false_r. reflexivity.
    + apply bool_decide_eq_false. intros [= -> -> -> -> -> E].
      apply Ho in E. subst a5. discriminate Hd1.
    + cbn [le_address_ set_le_address]. rewrite Haddr. reflexivity.
Qed.

(** X12 -- [SetPrivacyPolicyForInitiatorAddress] succeeds only on a manager
    without a policy and without clients, with a policy other than
    [POLICY_NOT_SET]; it records that policy, and every later call, whatever
    its arguments, is fatal on the first assertion. *)
Theorem policy_is_set_once
    (address_policy : AddressPolicy) (fixed_address : AddressWithType)
    (rotation_irk : list Z) (minimum maximum : Z) (m m' : LeAddressManager) :
  SetPrivacyPolicyForInitiatorAddress address_policy fixed_address
    rotation_irk minimum maximum m = Ok m' ->
  address_policy_ m = POLICY_NOT_SET /\
  registered_clients_ m = ∅ /\
  address_policy_ m' = address_policy /\
  address_policy <> POLICY_NOT_SET /\
  forall address_policy' fixed_address' rotation_irk' minimum' maximum',
    SetPrivacyPolicyForInitiatorAddress address_policy' fixed_address'
      rotation_irk' minimum' maximum' m'
    = Fatal "address_policy_ == AddressPolicy::POLICY_NOT_SET".
Proof.
  unfold SetPrivacyPolicyForInitiatorAddress at 1.
  case_bool_decide as Hset; [discriminate|].
  case_bool_decide as Hnew; [discriminate|].
  case_bool_decide as Hclients; cbn [negb]; [|discriminate].
  cbv zeta. intros H.
  assert (address_policy_ m = POLICY_NOT_SET) as Hunset.
  { destruct (decide (address_policy_ m = POLICY_NOT_SET)); [assumption|contradiction]. }
  assert (address_policy_ m' = address_policy) as Hpol.
  { destruct address_policy; try discriminate H;
      repeat match type of H with
             | (if ?c then _ else _) = _ => destruct c; [discriminate|]
             end;
      injection H as <-; reflexivity. }
  split; [exact Hunset|]. split; [exact Hclients|]. split; [exact Hpol|].
  split; [exact Hnew|].
  intros. unfold SetPrivacyPolicyForInitiatorAddress.
  rewrite Hpol. rewrite bool_decide_eq_true_2 by exact Hnew. reflexivity.
Qed.

(** ** The pause barrier *)

Lemma all_paused_spec (clients : gmap nat ClientState) :
  all_paused clients = true <->
  forall c st, clients !! c = Some st -> st = PAUSED.
Proof.
  unfold all_paused. rewrite forallb_forall. split.
  - intros H c st Hc.
    specialize (H (c, st)). cbn [snd] in H.
    eapply bool_decide_eq_true_1. apply H.
    apply list_elem_of_In, elem_of_map_to_list. exact Hc.
  - intros H [c st] Hin. cbn [snd]. apply bool_decide_eq_true_2.
    apply (H c). apply elem_of_map_to_list, list_elem_of_In. exact Hin.
Qed.

(** X13 -- [ack_pause] for a registered client records it as Paused.  While
    some other client is not Paused nothing else happens: no command is
    dequeued or issued.  When every other client is Paused it goes on to
    [handle_next_command] on the state with the acknowledgment recorded. *)
Theorem ack_pause_waits_for_every_client
    (fuel : nat) (c : nat) (m : LeAddressManager) :
  is_Some (registered_clients_ m !! c) ->
  let acknowledged :=
    set_registered_clients (<[c := PAUSED]> (registered_clients_ m)) m in
  ((exists c' st, c' <> c /\ registered_clients_ m !! c' = Some st /\
                  st <> PAUSED) ->
   ack_pause random aes_128 fuel c m = Ok acknowledged) /\
  ((forall c' st, c' <> c -> registered_clients_ m !! c' = Some st ->
                  st = PAUSED) ->
   ack_pause random aes_128 fuel c m
   = handle_next_command random aes_128 fuel acknowledged).
Proof.
  intros [st0 Hc] acknowledged. unfold ack_pause. rewrite Hc. cbv zeta.
  cbn [registered_clients_ set_registered_clients]. fold acknowledged.
  split.
  - intros (c' & st & Hne & Hc' & Hst).
    destruct (all_paused (<[c:=PAUSED]> (registered_clients_ m))) eqn:Hall;
      [|reflexivity].
    exfalso. apply Hst. rewrite all_paused_spec in Hall.
    apply (Hall c'). rewrite lookup_insert_ne by congruence. exact Hc'.
  - intros Hothers.
    rewrite (proj2 (all_paused_spec _)); [reflexivity|].
    intros c' st Hc'. destruct (decide (c' = c)) as [->|Hne].
    + rewrite lookup_insert_eq in Hc'. congruence.
    + rewrite lookup_insert_ne in Hc' by congruence. eauto.
Qed.

(** X14 -- [AckPause] and [AckResume] for a callback that is not
    registered, with nothing else pending on the handler, are fatal when the
    handler runs them. *)
Theorem acknowledgment_of_unknown_client_is_fatal
    (fuel : nat) (c : nat) (m : LeAddressManager) :
  registered_clients_ m !! c = None ->
  handler_ m = [] ->
  run_posted random aes_128 fuel (AckPause c m)
  = Fatal "registered_clients_.find(callback) != registered_clients_.end()" /\
  run_posted random aes_128 fuel (AckResume c m)
  = Fatal "registered_clients_.find(callback) != registered_clients_.end()".
Proof.
  intros Hc Hidle. unfold AckPause, AckResume.
  rewrite !(run_posted_post' random aes_128) by exact Hidle.
  cbn [run_task]. unfold ack_pause, ack_resume. rewrite Hc. auto.
Qed.

(** ** What the handler's tasks leave alone *)

Lemma same_configuration_refl (m : LeAddressManager) : same_configuration m m.
Proof. repeat split. Qed.

Lemma handle_next_command_configuration (fuel : nat) (m m' : LeAddressManager) :
  handle_next_command random aes_128 fuel m = Ok m' ->
  same_configuration m m' /\ handler_ m' = handler_ m.
Proof.
  unfold handle_next_command.
  destruct (cached_commands_ m) as [|command rest]; [discriminate|].
  cbv zeta. case_bool_decide.
  - pose proof (rotate_random_address_cases random aes_128 fuel
                  (set_cached_commands rest m)) as Hrot.
    intros E. rewrite E in Hrot.
    destruct (is_rotating _).
    + destruct Hrot as (n & delay & address & _ & ->). repeat split.
    + subst m'. repeat split.
  - intros [= <-]. repeat split.
Qed.

(** X15 -- no task the manager posts to its handler, when it runs through,
    changes the policy, the public address, the rotation key, the rotation
    times or whether the alarm exists, and none posts further work. *)
Theorem tasks_keep_the_configuration
    (fuel : nat) (t : Task) (m m' : LeAddressManager) :
  run_task random aes_128 fuel t m = Ok m' ->
  same_configuration m m' /\ handler_ m' = handler_ m.
Proof.
  destruct t; cbn [run_task].
  - intros [= <-]. unfold register_client. cbv zeta.
    match goal with |- context [if ?c then _ else _] => destruct c end;
      [unfold prepare_to_rotate; cbv zeta;
       rewrite pause_registered_clients_calls|]; repeat split.
  - intros [= <-]. unfold unregister_client. cbv zeta.
    match goal with |- context [if ?c then _ else _] => destruct c end;
      repeat split.
  - unfold ack_pause. destruct (registered_clients_ m !! callback); [|discriminate].
    cbv zeta. match goal with |- context [if ?c then _ else _] => destruct c end.
    + intros H. apply handle_next_command_configuration in H. exact H.
    + intros [= <-]. repeat split.
  - unfold ack_resume. destruct (registered_clients_ m !! callback); [|discriminate].
    intros [= <-]. repeat split.
  - intros [= <-]. rewrite pause_registered_clients_calls. repeat split.
  - unfold resume_registered_clients.
    match goal with |- context [if ?c then _ else _] => destruct c end.
    + apply handle_next_command_configuration.
    + rewrite resume_loop. intros [= <-]. repeat split.
  - apply handle_next_command_configuration.
  - intros [= <-]. unfold prepare_to_rotate. cbv zeta.
    rewrite pause_registered_clients_calls. repeat split.
  - intros [= <-]. repeat split.
Qed.

(** ** The two completion handlers *)

(** X16 -- on a valid completion with status [SUCCESS] that is not the
    static-address set, [on_le_set_random_address_complete] does exactly
    what [OnCommandComplete] does. *)
Theorem completion_handlers_agree_on_success
    (view : CommandCompleteView) (m : LeAddressManager) :
  acted_on (address_policy_ m) view ->
  LeSetRandomAddressComplete view = Some SUCCESS ->
  on_le_set_random_address_complete view m = Ok (OnCommandComplete view m).
Proof.
  intros [Hvalid Hstatic] Hstatus.
  unfold on_le_set_random_address_complete, OnCommandComplete.
  rewrite Hstatus, Hvalid. cbn [negb].
  rewrite (bool_decide_eq_false_2 (SUCCESS <> SUCCESS))
    by (intros H; apply H; reflexivity).
  assert (bool_decide (GetCommandOpCode view = LE_SET_RANDOM_ADDRESS)
          && bool_decide (address_policy_ m = USE_STATIC_ADDRESS) = false) as ->.
  { apply andb_false_iff.
    destruct (decide (GetCommandOpCode view = LE_SET_RANDOM_ADDRESS)) as [E1|E1];
      [|left; apply bool_decide_eq_false; exact E1].
    right. apply bool_decide_eq_false. intros E2. apply Hstatic. auto. }
  case_bool_decide; reflexivity.
Qed.

(** ** The current address *)

(** X17 -- under a rotating policy, a rotation that is carried out hands
    exactly one [LeSetRandomAddress] to the controller, and
    [GetCurrentAddress] then returns the address of that command, typed as
    a random device address. *)
Theorem current_address_follows_submission
    (fuel : nat) (m m' : LeAddressManager) :
  is_rotating (address_policy_ m) = true ->
  rotate_random_address random aes_128 fuel m = Ok m' ->
  exists address,
    submitted (trace m')
    = submitted (trace m) ++ [Some (LeSetRandomAddressBuilder address)] /\
    GetCurrentAddress m'
    = Ok {| GetAddress := address; GetAddressType := RANDOM_DEVICE_ADDRESS |}.
Proof.
  intros Hrot Hok.
  pose proof (rotate_random_address_cases random aes_128 fuel m) as H.
  rewrite Hok, Hrot in H. destruct H as (n & delay & address & _ & ->).
  exists address. split.
  - cbn [trace set_le_address set_random_drawn emit_all].
    unfold submitted. rewrite omap_app. reflexivity.
  - unfold GetCurrentAddress.
    cbn [address_policy_ set_le_address set_random_drawn emit_all le_address_].
    rewrite bool_decide_eq_false_2; [reflexivity|].
    intros E. rewrite E in Hrot. discriminate Hrot.
Qed.

(** X18 -- [GetAnotherAddress] is fatal unless the policy is a rotating one.
    Under either rotating policy, the non-resolvable one included, it
    returns an address in resolvable format: typed random, the two most
    significant bits 01 and the random bits neither all 0 nor all 1.  It
    only consumes random values: the current address, the clients and the
    cached commands are untouched. *)
Theorem another_address_is_resolvable_format (m : LeAddressManager) :
  match GetAnotherAddress random aes_128 m with
  | Ok (a, m') =>
      is_rotating (address_policy_ m) = true /\
      GetAddressType a = RANDOM_DEVICE_ADDRESS /\
      64 <= nth 5 (GetAddress a) 0 < 128 /\
      all_zero (rpa_random_bits (GetAddress a)) = false /\
      all_one (rpa_random_bits (GetAddress a)) = false /\
      exists n, m' = set_random_drawn n m
  | Fatal _ => is_rotating (address_policy_ m) = false
  | _ => False
  end.
Proof.
  unfold GetAnotherAddress, is_rotating.
  rewrite (orb_comm (bool_decide (address_policy_ m = USE_NON_RESOLVABLE_ADDRESS))).
  destruct (bool_decide (address_policy_ m = USE_RESOLVABLE_ADDRESS)
            || bool_decide (address_policy_ m = USE_NON_RESOLVABLE_ADDRESS));
    cbn [negb]; [|reflexivity].
  pose proof (generate_rpa_is_resolvable_format m) as Hfmt.
  pose proof (rpa_non_degenerate random aes_128 m) as Hnd.
  pose proof (generate_rpa_frame random aes_128 m) as Hframe.
  destruct (generate_rpa random aes_128 m) as [address m'].
  cbn [fst snd GetAddress GetAddressType] in *.
  split; [reflexivity|]. split; [reflexivity|]. tauto.
Qed.

(** ** List mutators, registration and unregistration *)

Lemma cache_after_posting_pause_run
    (fuel : nat) (command : Command) (m : LeAddressManager) :
  handler_ m = [] ->
  run_posted random aes_128 fuel (cache_after_posting_pause command m)
  = Ok (emit_all
          (OnPause <$> (List.filter wants_pause
                          (map_to_list (registered_clients_ m))).*1)
          (set_cached_commands (cached_commands_ m ++ [command]) m)).
Proof.
  intros Hidle. unfold cache_after_posting_pause, run_posted, post. cbv zeta.
  cbn [handler_ set_handler set_cached_commands cached_commands_].
  rewrite Hidle. cbn [app run_tasks run_task].
  rewrite pause_registered_clients_calls. f_equal.
  destruct m; cbn in *; subst; reflexivity.
Qed.

(** X19 -- each of the six connect-list and resolving-list entry points,
    with nothing else pending on the handler, hands nothing to the
    controller: it appends one command with a packet, not a rotation, to the
    cached commands and calls [OnPause] once on every client not recorded as
    Paused or WaitingForPause. *)
Theorem list_mutators_only_cache
    (fuel : nat) (address_type : Z) (address peer_irk local_irk : list Z)
    (entry : LeAddressManager -> LeAddressManager) (m : LeAddressManager) :
  entry ∈ list_mutators address_type address peer_irk local_irk ->
  handler_ m = [] ->
  exists command asked,
    command_type command <> ROTATE_RANDOM_ADDRESS /\
    is_Some (command_packet command) /\
    run_posted random aes_128 fuel (entry m)
    = Ok (emit_all (OnPause <$> asked)
            (set_cached_commands (cached_commands_ m ++ [command]) m)) /\
    NoDup asked /\
    (forall x, x ∈ asked <->
               exists st, registered_clients_ m !! x = Some st /\
                          st <> PAUSED /\ st <> WAITING_FOR_PAUSE).
Proof.
  intros Hin Hidle.
  destruct (asked_to_pause (registered_clients_ m)) as [Hnd Hasked].
  unfold list_mutators in Hin.
  repeat (apply elem_of_cons in Hin as [->|Hin]);
    [ .. | apply elem_of_nil in Hin; destruct Hin ];
    unfold AddDeviceToConnectList, AddDeviceToResolvingList,
      RemoveDeviceFromConnectList, RemoveDeviceFromResolvingList,
      ClearConnectList, ClearResolvingList; cbv zeta;
    rewrite cache_after_posting_pause_run by exact Hidle;
    eexists _, _;
    (split; [|split; [|split; [reflexivity|split; [exact Hnd | exact Hasked]]]]);
    cbn; first [discriminate | eauto].
Qed.

(** X20 -- when every client but one is Paused and that one is
    unregistered, with nothing else pending on the handler, every remaining
    client is Paused, but the cached commands stay cached: nothing is handed
    to the controller and no client is resumed. *)
Theorem unregister_does_not_release_the_barrier
    (fuel : nat) (c : nat) (m : LeAddressManager) :
  handler_ m = [] ->
  (forall c' st, c' <> c -> registered_clients_ m !! c' = Some st ->
                 st = PAUSED) ->
  exists m',
    run_posted random aes_128 fuel (Unregister c m) = Ok m' /\
    registered_clients_ m' = delete c (registered_clients_ m) /\
    all_paused (registered_clients_ m') = true /\
    cached_commands_ m' = cached_commands_ m /\
    submitted (trace m') = submitted (trace m) /\
    resumed (trace m') = resumed (trace m).
Proof.
  intros Hidle Hothers. unfold Unregister.
  rewrite (run_posted_post' random aes_128) by exact Hidle.
  cbn [run_task]. unfold unregister_client. cbv zeta.
  cbn [registered_clients_ set_registered_clients address_rotation_alarm_].
  assert (all_paused (delete c (registered_clients_ m)) = true) as Hall.
  { apply all_paused_spec. intros c' st Hc'.
    apply lookup_delete_Some in Hc' as [Hne Hc']. eauto. }
  match goal with |- context [if ?b then _ else _] => destruct b end;
    eexists; (split; [reflexivity|]);
    cbn [registered_clients_ cached_commands_ trace emit set_registered_clients];
    repeat split; try assumption.
  - unfold submitted. rewrite omap_app. cbn. apply app_nil_r.
  - unfold resumed. rewrite omap_app. cbn. apply app_nil_r.
Qed.

(** X21 -- under the public or the static policy, registering a client,
    with nothing else pending on the handler, only records it, Resumed when
    it is new and with its state kept when it is registered already: the
    other clients, the cached commands and the calls made are unchanged. *)
Theorem register_under_fixed_policy
    (fuel : nat) (c : nat) (m : LeAddressManager) :
  address_policy_ m = USE_PUBLIC_ADDRESS \/
  address_policy_ m = USE_STATIC_ADDRESS ->
  handler_ m = [] ->
  exists m',
    run_posted random aes_128 fuel (Register c m).2 = Ok m' /\
    registered_clients_ m' !! c
    = Some (default RESUMED (registered_clients_ m !! c)) /\
    (forall c', c' <> c ->
                registered_clients_ m' !! c' = registered_clients_ m !! c') /\
    cached_commands_ m' = cached_commands_ m /\
    trace m' = trace m.
Proof.
  intros Hpolicy Hidle. unfold Register. cbn [snd].
  rewrite (run_posted_post' random aes_128) by exact Hidle.
  cbn [run_task]. unfold register_client. cbv zeta.
  cbn [address_policy_ set_registered_clients].
  assert (bool_decide (address_policy_ m = POLICY_NOT_SET)
          || bool_decide (address_policy_ m = USE_RESOLVABLE_ADDRESS)
          || bool_decide (address_policy_ m = USE_NON_RESOLVABLE_ADDRESS)
          = false) as ->
    by (destruct Hpolicy as [-> | ->]; reflexivity).
  eexists. split; [reflexivity|].
  cbn [registered_clients_ cached_commands_ trace set_registered_clients].
  destruct (registered_clients_ m !! c) as [st|] eqn:Hc; cbn [default].
  - repeat split. exact Hc.
  - repeat split.
    + apply lookup_insert_eq.
    + intros c' Hne. apply lookup_insert_ne. congruence.
Qed.

(** ** The order in which cached commands are issued *)

Lemma completion_issues_list_command
    (fuel : nat) (view : CommandCompleteView) (command : Command)
    (rest : list Command) (m : LeAddressManager) :
  handler_ m = [] ->
  acted_on (address_policy_ m) view ->
  cached_commands_ m = command :: rest ->
  command_type command <> ROTATE_RANDOM_ADDRESS ->
  run_posted random aes_128 fuel (OnCommandComplete view m)
  = Ok (emit (enqueue_command (command_packet command))
          (set_cached_commands rest m)).
Proof.
  intros Hidle [Hvalid Hstatic] Hq Hty.
  unfold OnCommandComplete. rewrite Hvalid. cbn [negb].
  assert (bool_decide (GetCommandOpCode view = LE_SET_RANDOM_ADDRESS)
          && bool_decide (address_policy_ m = USE_STATIC_ADDRESS) = false) as ->.
  { apply andb_false_iff.
    destruct (decide (GetCommandOpCode view = LE_SET_RANDOM_ADDRESS)) as [E1|E1];
      [|left; apply bool_decide_eq_false; exact E1].
    right. apply bool_decide_eq_false. intros E2. apply Hstatic. auto. }
  rewrite Hq. rewrite bool_decide_eq_false_2 by discriminate.
  rewrite (run_posted_post' random aes_128) by exact Hidle.
  cbn [run_task]. unfold handle_next_command. rewrite Hq. cbv zeta.
  rewrite bool_decide_eq_false_2 by exact Hty. reflexivity.
Qed.

(** X22 -- list commands at the front of the cache are handed to the
    controller one per completion, first cached first: after [n] valid
    completions that are not the static-address set, the first [n] cached
    commands, none of them a rotation, have been issued in order and the
    rest is still cached. *)
Theorem cached_commands_issue_in_order
    (fuel : nat) (views : list CommandCompleteView) :
  forall m : LeAddressManager,
    handler_ m = [] ->
    Forall (acted_on (address_policy_ m)) views ->
    (length views <= length (cached_commands_ m))%nat ->
    Forall (fun command => command_type command <> ROTATE_RANDOM_ADDRESS)
           (take (length views) (cached_commands_ m)) ->
    complete_each random aes_128 fuel views m
    = Ok (emit_all
            ((fun command => enqueue_command (command_packet command))
               <$> take (length views) (cached_commands_ m))
            (set_cached_commands
               (drop (length views) (cached_commands_ m)) m)).
Proof.
  induction views as [|view views IH]; intros m Hidle Hviews Hlen Hlist.
  - cbn [complete_each length take drop fmap list_fmap]. f_equal.
    rewrite emit_all_nil. destruct m; reflexivity.
  - destruct (cached_commands_ m) as [|command rest] eqn:Hq;
      [cbn in Hlen; lia|].
    cbn [length take] in Hlist. apply Forall_cons in Hlist as [Hty Hlist].
    apply Forall_cons in Hviews as [Hview Hviews].
    cbn [complete_each].
    rewrite (completion_issues_list_command fuel view command rest m
               Hidle Hview Hq Hty).
    rewrite IH; [ | exact Hidle | exact Hviews | cbn in *; lia | exact Hlist ].
    cbn [length take drop fmap list_fmap cached_commands_ emit
         set_cached_commands].
    f_equal. same_state.
Qed.
End manager_more.

(** ** Concrete runs of the further properties *)

Lemma generate_nrpa_is_six_octets_witness :
  exists a m',
    generate_nrpa sample_random 1 resolvable_manager = Some (a, m') /\
    is_address a /\ nth 5 a 0 < 64.
Proof.
  destruct (generate_nrpa sample_random 1 resolvable_manager)
    as [[a m']|] eqn:E.
  - exists a, m'. split; [reflexivity|].
    apply (generate_nrpa_is_six_octets sample_random 1 resolvable_manager m' a E).
  - vm_compute in E. discriminate E.
Defined.

Lemma static_address_is_validated_witness :
  exists m',
    SetPrivacyPolicyForInitiatorAddress USE_STATIC_ADDRESS static_address
      [] 0 0 (new_LeAddressManager sample_public_address) = Ok m' /\
    handler_ m'
    = [enqueue_command_task (LeSetRandomAddressBuilder (GetAddress static_address))].
Proof.
  assert (is_address (GetAddress static_address)) as Haddr.
  { split; [reflexivity|].
    repeat (apply Forall_cons; split; [cbn; lia|]). constructor. }
  pose proof (static_address_is_validated static_address [] 0 0
                (new_LeAddressManager sample_public_address)
                eq_refl eq_refl Haddr) as H.
  destruct (SetPrivacyPolicyForInitiatorAddress USE_STATIC_ADDRESS static_address
              [] 0 0 (new_LeAddressManager sample_public_address))
    as [m'|msg| |] eqn:E.
  - exists m'. split; [reflexivity|].
    destruct H as (_ & _ & _ & ->). reflexivity.
  - vm_compute in E. discriminate E.
  - destruct H.
  - destruct H.
Defined.

Lemma policy_is_set_once_witness :
  SetPrivacyPolicyForInitiatorAddress USE_RESOLVABLE_ADDRESS static_address
    (replicate 16 0x01) 1000 2000 (new_LeAddressManager sample_public_address)
  = Ok resolvable_manager /\
  SetPrivacyPolicyForInitiatorAddress USE_PUBLIC_ADDRESS static_address
    [] 0 0 resolvable_manager
  = Fatal "address_policy_ == AddressPolicy::POLICY_NOT_SET".
Proof.
  split; [reflexivity|].
  destruct (policy_is_set_once USE_RESOLVABLE_ADDRESS static_address
              (replicate 16 0x01) 1000 2000
              (new_LeAddressManager sample_public_address) resolvable_manager
              eq_refl) as (_ & _ & _ & _ & H).
  apply H.
Defined.

Lemma ack_pause_waits_for_every_client_witness :
  ack_pause sample_random sample_aes_128 0 7
    (two_clients RESUMED RESUMED [clear_connect_list_command] resolvable_manager)
  = Ok (two_clients PAUSED RESUMED [clear_connect_list_command] resolvable_manager).
Proof.
  destruct (ack_pause_waits_for_every_client sample_random sample_aes_128 0 7
              (two_clients RESUMED RESUMED [clear_connect_list_command]
                 resolvable_manager)
              (ex_intro _ RESUMED eq_refl)) as [Hwait _].
  rewrite Hwait.
  - reflexivity.
  - exists 8%nat, RESUMED. split; [lia|]. split; [reflexivity | discriminate].
Defined.

Lemma acknowledgment_of_unknown_client_is_fatal_witness :
  run_posted sample_random sample_aes_128 0 (AckPause 9 resolvable_manager)
  = Fatal "registered_clients_.find(callback) != registered_clients_.end()".
Proof.
  apply (acknowledgment_of_unknown_client_is_fatal sample_random sample_aes_128
           0 9 resolvable_manager eq_refl eq_refl).
Defined.

Lemma tasks_keep_the_configuration_witness :
  exists m',
    run_task sample_random sample_aes_128 0 (ack_pause_task 7)
      (with_paused_client [rotate_command] resolvable_manager) = Ok m' /\
    same_configuration (with_paused_client [rotate_command] resolvable_manager) m'.
Proof.
  destruct (run_task sample_random sample_aes_128 0 (ack_pause_task 7)
              (with_paused_client [rotate_command] resolvable_manager))
    as [m'| | |] eqn:E; try (vm_compute in E; discriminate E).
  exists m'. split; [reflexivity|].
  apply (tasks_keep_the_configuration sample_random sample_aes_128 0
           (ack_pause_task 7) _ m' E).
Defined.

Lemma completion_handlers_agree_on_success_witness :
  on_le_set_random_address_complete
    (complete_view LE_SET_RANDOM_ADDRESS SUCCESS)
    (with_paused_client [] resolvable_manager)
  = Ok (OnCommandComplete (complete_view LE_SET_RANDOM_ADDRESS SUCCESS)
          (with_paused_client [] resolvable_manager)).
Proof.
  apply completion_handlers_agree_on_success; [|reflexivity].
  split; [reflexivity|]. intros [_ E]. discriminate E.
Defined.

Lemma current_address_follows_submission_witness :
  exists m' address,
    rotate_random_address sample_random sample_aes_128 0 resolvable_manager
    = Ok m' /\
    GetCurrentAddress m'
    = Ok {| GetAddress := address; GetAddressType := RANDOM_DEVICE_ADDRESS |}.
Proof.
  destruct (rotate_random_address sample_random sample_aes_128 0
              resolvable_manager) as [m'| | |] eqn:E;
    try (vm_compute in E; discriminate E).
  destruct (current_address_follows_submission sample_random sample_aes_128 0
              resolvable_manager m' eq_refl E) as (address & _ & H).
  exists m', address. split; [reflexivity | exact H].
Defined.

Lemma list_mutators_only_cache_witness :
  exists command asked,
    run_posted sample_random sample_aes_128 0
      (ClearConnectList (with_paused_client [] resolvable_manager))
    = Ok (emit_all (OnPause <$> asked)
            (set_cached_commands [command]
               (with_paused_client [] resolvable_manager))) /\
    command_type command <> ROTATE_RANDOM_ADDRESS.
Proof.
  destruct (list_mutators_only_cache sample_random sample_aes_128 0 0 [] [] []
              ClearConnectList (with_paused_client [] resolvable_manager))
    as (command & asked & Hty & _ & Hrun & _).
  - unfold list_mutators. set_solver.
  - reflexivity.
  - exists command, asked. split; [exact Hrun | exact Hty].
Defined.

Lemma unregister_does_not_release_the_barrier_witness :
  exists m',
    run_posted sample_random sample_aes_128 0
      (Unregister 8
         (two_clients PAUSED RESUMED [clear_connect_list_command]
            resolvable_manager)) = Ok m' /\
    all_paused (registered_clients_ m') = true /\
    cached_commands_ m' = [clear_connect_list_command] /\
    submitted (trace m') = [].
Proof.
  destruct (unregister_does_not_release_the_barrier sample_random sample_aes_128
              0 8
              (two_clients PAUSED RESUMED [clear_connect_list_command]
                 resolvable_manager) eq_refl)
    as (m' & Hrun & _ & Hall & Hq & Hsub & _).
  - intros c' st Hne Hc'. unfold two_clients in Hc'. cbn in Hc'.
    destruct (decide (c' = 7%nat)) as [->|H7].
    + rewrite lookup_insert_eq in Hc'. congruence.
    + rewrite lookup_insert_ne in Hc' by congruence.
      rewrite lookup_singleton_ne in Hc' by congruence. discriminate Hc'.
  - exists m'. split; [exact Hrun|]. split; [exact Hall|].
    split; [exact Hq | exact Hsub].
Defined.

Lemma register_under_fixed_policy_witness :
  exists m',
    run_posted sample_random sample_aes_128 0
      (Register 7 public_policy_manager).2 = Ok m' /\
    registered_clients_ m' !! 7%nat = Some RESUMED /\
    cached_commands_ m' = [] /\ trace m' = [].
Proof.
  destruct (register_under_fixed_policy sample_random sample_aes_128 0 7
              public_policy_manager (or_introl eq_refl) eq_refl)
    as (m' & Hrun & Hc & _ & Hq & Htr).
  exists m'. split; [exact Hrun|]. split; [exact Hc|].
  split; [exact Hq | exact Htr].
Defined.

Lemma cached_commands_issue_in_order_witness :
  complete_each sample_random sample_aes_128 0
    [complete_view LE_SET_RANDOM_ADDRESS SUCCESS;
     complete_view LE_ADD_DEVICE_TO_CONNECT_LIST SUCCESS]
    (with_paused_client
       [add_to_connect_list_command; clear_connect_list_command]
       resolvable_manager)
  = Ok (emit_all
          [enqueue_command (command_packet add_to_connect_list_command);
           enqueue_command (command_packet clear_connect_list_command)]
          (with_paused_client [] resolvable_manager)).
Proof.
  rewrite (cached_commands_issue_in_order sample_random sample_aes_128 0
             [complete_view LE_SET_RANDOM_ADDRESS SUCCESS;
              complete_view LE_ADD_DEVICE_TO_CONNECT_LIST SUCCESS]
             (with_paused_client
                [add_to_connect_list_command; clear_connect_list_command]
                resolvable_manager)).
  - reflexivity.
  - reflexivity.
  - repeat (apply Forall_cons; split;
            [split; [reflexivity | intros [_ E]; discriminate E]|]).
    constructor.
  - cbn. lia.
  - cbn. repeat (apply Forall_cons; split; [discriminate|]). constructor.
Defined.
